(** * Gerador de QR codes: a shallow embedding of [App.tsx]

    The repository holds two versions of the single-page application:
    [src/src/App.tsx], where the hashing secret is the built-in constant
    [VAPWHV], and [src/unnamed/part_000], where the secret is a password typed
    by the user.  The two files differ in three places only (the secret, the
    guard on an empty password, the name of the image files in the archive);
    the embedding takes the version as a parameter, [variant].

    JavaScript strings are sequences of UTF-16 code units, modelled as lists
    of [N]; React state is a record; the effects of a handler (state updates,
    calls to the three libraries, downloads, timers, the console) are threaded
    through a state-and-exception monad over a [World]. *)

From Stdlib Require Import ZArith NArith Lia Ascii DecimalString DecimalNat.
From Stdlib Require Import Sorting.Sorted Sorting.Permutation.
From stdpp Require Import strings gmap list.

(** ** JavaScript strings *)

(** A string value: its UTF-16 code units. *)
Abbreviation jsstring := (list N).

Section JSString.
Local Open Scope N_scope.

(** A literal of the source, for the ASCII part of the alphabet. *)
Fixpoint lit (s : string) : jsstring :=
  match s with
  | EmptyString => []
  | String a s' => N_of_ascii a :: lit s'
  end.

(** The code units that [String.prototype.trim] strips and that the regular
    expression class [\s] matches (ECMAScript WhiteSpace and LineTerminator):
    TAB, LF, VT, FF, CR, SP, NBSP, U+1680, U+2000..U+200A, U+2028, U+2029,
    U+202F, U+205F, U+3000 and U+FEFF. *)
Definition isWhiteSpace (c : N) : bool :=
  ((9 <=? c) && (c <=? 13)) || (c =? 32) || (c =? 160) || (c =? 5760)
  || ((8192 <=? c) && (c <=? 8202)) || (c =? 8232) || (c =? 8233)
  || (c =? 8239) || (c =? 8287) || (c =? 12288) || (c =? 65279).

(** The class [\d]: the ten ASCII digits. *)
Definition isDigit (c : N) : bool := (48 <=? c) && (c <=? 57).

Fixpoint trimStart (s : jsstring) : jsstring :=
  match s with
  | [] => []
  | c :: s' => if isWhiteSpace c then trimStart s' else s
  end.

Definition trimEnd (s : jsstring) : jsstring := rev (trimStart (rev s)).

(** [s.trim()] *)
Definition trim (s : jsstring) : jsstring := trimEnd (trimStart s).

(** [s.split("\n")]: the pieces between line feeds; never the empty array. *)
Fixpoint splitLines (s : jsstring) : list jsstring :=
  match s with
  | [] => [[]]
  | c :: s' =>
      if c =? 10 then [] :: splitLines s'
      else match splitLines s' with
           | l :: ls => (c :: l) :: ls
           | [] => [[c]]
           end
  end.

(** [s.replace(/\s/g, "")] *)
Definition removeWhiteSpace (s : jsstring) : jsstring :=
  List.filter (fun c => negb (isWhiteSpace c)) s.

(** [/^\d+$/.test(s)]: one digit or more and nothing else (no [m] flag, so
    [^] and [$] are the ends of the string). *)
Definition allDigits (s : jsstring) : bool :=
  match s with
  | [] => false
  | _ :: _ => forallb isDigit s
  end.

(** [s.replace(/^prefix/, "")] for a literal [prefix]: the prefix is dropped
    when the string starts with it, and the string is returned as it is
    otherwise. *)
Fixpoint stripPrefix (prefix s : jsstring) : option jsstring :=
  match prefix, s with
  | [], _ => Some s
  | p :: prefix', c :: s' => if p =? c then stripPrefix prefix' s' else None
  | _ :: _, [] => None
  end.

Definition replacePrefix (prefix s : jsstring) : jsstring :=
  match stripPrefix prefix s with
  | Some rest => rest
  | None => s
  end.

End JSString.

Arguments lit : simpl never.

(** A non-negative integer in a template literal: its decimal digits. *)
Definition showNat (n : nat) : jsstring :=
  lit (NilZero.string_of_uint (Nat.to_uint n)).

(** ** JavaScript numbers

    The values [parseInt] and the subtraction of the sort comparator can
    produce: integral doubles, the infinities and NaN.  An integral double is
    kept as the integer it denotes (the sign of zero is not observable through
    the comparator). *)

Inductive jsnumber : Type :=
  | NaN
  | PosInf
  | NegInf
  | Num (z : Z).

Section JSNumber.
Local Open Scope Z_scope.

(** The double nearest to a non-negative integer (round to nearest, ties to
    even, 53 bits of significand; overflow to infinity from [2^1024]). *)
Definition roundMagnitude (n : Z) : jsnumber :=
  if n <? 2 ^ 53 then Num n
  else
    let sh := Z.log2 n - 52 in
    let q := n / 2 ^ sh in
    let r := n mod 2 ^ sh in
    let half := 2 ^ (sh - 1) in
    let q' := if (half <? r) || ((r =? half) && Z.odd q) then q + 1 else q in
    let v := q' * 2 ^ sh in
    if 2 ^ 1024 <=? v then PosInf else Num v.

Definition negate (x : jsnumber) : jsnumber :=
  match x with
  | NaN => NaN
  | PosInf => NegInf
  | NegInf => PosInf
  | Num z => Num (- z)
  end.

(** The Number value of a mathematical integer. *)
Definition toNumber (z : Z) : jsnumber :=
  if z <? 0 then negate (roundMagnitude (- z)) else roundMagnitude z.

(** [x - y] on Number values. *)
Definition numSub (x y : jsnumber) : jsnumber :=
  match x, y with
  | NaN, _ | _, NaN => NaN
  | PosInf, PosInf => NaN
  | NegInf, NegInf => NaN
  | PosInf, _ => PosInf
  | NegInf, _ => NegInf
  | Num _, PosInf => NegInf
  | Num _, NegInf => PosInf
  | Num a, Num b => toNumber (a - b)
  end.

(** The value of a code unit as a digit of the given radix (10 or 16). *)
Definition digitValue (radix : Z) (c : N) : option Z :=
  let c := Z.of_N c in
  if (48 <=? c) && (c <=? 57) then Some (c - 48)
  else if (radix =? 16) && (97 <=? c) && (c <=? 102) then Some (c - 87)
  else if (radix =? 16) && (65 <=? c) && (c <=? 70) then Some (c - 55)
  else None.

(** The digits of the longest prefix of [s] made of digits of the radix. *)
Fixpoint leadingDigits (radix : Z) (s : jsstring) : list Z :=
  match s with
  | [] => []
  | c :: s' =>
      match digitValue radix c with
      | Some d => d :: leadingDigits radix s'
      | None => []
      end
  end.

Definition digitsValue (radix : Z) (ds : list Z) : Z :=
  fold_left (fun acc d => acc * radix + d) ds 0.

(** [parseInt(s)] with no radix argument: leading white space is skipped, a
    sign is read, [0x] or [0X] selects radix 16, and the longest prefix of
    digits is converted; the result is NaN when there is no digit.  The
    integer read is rounded to the nearest double (the standard lets an
    engine approximate the integer only beyond its 20th significant
    digit). *)
Definition parseInt (s : jsstring) : jsnumber :=
  let s := trimStart s in
  let '(negative, s) :=
    match s with
    | c :: s' =>
        if (c =? 45)%N then (true, s')         (* - *)
        else if (c =? 43)%N then (false, s')   (* + *)
        else (false, s)
    | [] => (false, s)
    end in
  let '(radix, s) :=
    match s with
    | c :: x :: s' =>
        if (c =? 48)%N && ((x =? 120)%N || (x =? 88)%N)   (* 0x, 0X *)
        then (16, s') else (10, s)
    | _ => (10, s)
    end in
  match leadingDigits radix s with
  | [] => NaN
  | ds =>
      let v := digitsValue radix ds in
      toNumber (if negative then - v else v)
  end.

(** The integer a string of decimal digits denotes. *)
Definition decimalValue (s : jsstring) : Z :=
  digitsValue 10 (leadingDigits 10 s).

(** Whether a comparator's result is greater than zero.  [Array.prototype.sort]
    reads a NaN result as [+0]. *)
Definition isPositive (v : jsnumber) : bool :=
  match v with
  | PosInf => true
  | Num z => 0 <? z
  | NaN | NegInf => false
  end.

End JSNumber.

(** ** [Array.prototype.sort]

    The sort is stable (ECMAScript 2019), and for a consistent comparator a
    stable sort has one possible result, whatever algorithm the engine runs.
    It is modelled as a stable insertion sort: an element moves past those
    the comparator places strictly before it, and no further. *)

Section ArraySort.
Context {A : Type} (compareFn : A -> A -> jsnumber).

Fixpoint sortInsert (x : A) (l : list A) : list A :=
  match l with
  | [] => [x]
  | y :: l' =>
      if isPositive (compareFn x y) then y :: sortInsert x l' else x :: l
  end.

Fixpoint arraySort (l : list A) : list A :=
  match l with
  | [] => []
  | x :: l' => sortInsert x (arraySort l')
  end.

End ArraySort.

(** ** Values of the program *)

(** What a [throw] carries: an instance of [Error], with its message, or any
    other value. *)
Inductive exn : Type :=
  | ErrorObject (message : jsstring)
  | Thrown (value : jsstring).

Inductive result (A : Type) : Type :=
  | Ok (a : A)
  | Throw (e : exn).
Arguments Ok {A} a.
Arguments Throw {A} e.

(** [interface QRCodeData] *)
Record QRCodeData : Type := mkQRCodeData {
  url : jsstring;
  qrDataUrl : jsstring;
  number : jsstring;
}.

(** The two versions of the application. *)
Inductive variant : Type :=
  | FixedSecret   (* src/src/App.tsx *)
  | UserSecret.   (* src/unnamed/part_000 *)

#[global] Instance variant_eq_dec : EqDecision variant.
Proof. solve_decision. Defined.

(** ** JSZip

    An archive is the ordered table of its entries, keyed by path: a new path
    is appended, and writing to a path the table already holds replaces the
    entry where it stands ([file]: "add or update").  A folder object is the
    archive it belongs to together with its root path; the paths this program
    writes hold no [/] besides the root's, so no intermediate folder is ever
    created and that part of JSZip is not modelled. *)

Inductive zipEntry : Type :=
  | ZipFolder
  | ZipFile (data : jsstring) (base64 : bool).

Abbreviation archive := (list (jsstring * zipEntry)).

Fixpoint zipSet (path : jsstring) (e : zipEntry) (a : archive) : archive :=
  match a with
  | [] => [(path, e)]
  | (p, e') :: a' =>
      if decide (p = path) then (path, e) :: a' else (p, e') :: zipSet path e a'
  end.

Definition zipHas (path : jsstring) (a : archive) : bool :=
  bool_decide (path ∈ a.*1).

(** [zip.folder(name)] on the folder object with root [root]: the directory
    entry is created unless it exists, and the new root is returned.  The
    typings give the result as [JSZip | null]; for a string argument the
    library returns the folder. *)
Definition zipFolder (a : archive) (root name : jsstring)
  : option (archive * jsstring) :=
  let path := root ++ name ++ [47%N] in
  Some (if zipHas path a then a else zipSet path ZipFolder a, path).

(** [folder.file(name, data, { base64: true })] *)
Definition zipFile (a : archive) (root name data : jsstring) : archive :=
  zipSet (root ++ name) (ZipFile data true) a.

(** ** The world of a handler *)

(** The component's React state. [password] exists in [UserSecret] only. *)
Record AppState : Type := mkAppState {
  error : jsstring;
  debugInfo : jsstring;
  password : jsstring;
  fileContent : list jsstring;
  isProcessing : bool;
  currentBatch : option (nat * nat);
}.

(** What a handler does to its environment, in order. *)
Inductive event : Type :=
  | CallSHA256 (input : jsstring)
  | CallToDataURL (text : jsstring)
  | CallGenerateAsync (files : archive)
  | Download (filename : jsstring) (content : list N)
  | SetTimeout (ms : N)
  | ConsoleError (e : exn).

(** React state, the arrays allocated so far (by reference), and the trace. *)
Record World : Type := mkWorld {
  appState : AppState;
  heap : gmap nat (list QRCodeData);
  trace : list event;
}.

Definition withApp (f : AppState -> AppState) (w : World) : World :=
  mkWorld (f (appState w)) (heap w) (trace w).
Definition withHeap (f : gmap nat (list QRCodeData) -> gmap nat (list QRCodeData))
  (w : World) : World :=
  mkWorld (appState w) (f (heap w)) (trace w).
Definition emit (ev : event) (w : World) : World :=
  mkWorld (appState w) (heap w) (trace w ++ [ev]).

(** Computations of a handler: the world is kept when an exception is
    thrown. *)
Definition M (A : Type) : Type := World -> World * result A.

Definition ret {A} (a : A) : M A := fun w => (w, Ok a).
Definition throw {A} (e : exn) : M A := fun w => (w, Throw e).
Definition bind {A B} (m : M A) (k : A -> M B) : M B :=
  fun w =>
    match m w with
    | (w', Ok a) => k a w'
    | (w', Throw e) => (w', Throw e)
    end.
Definition modify (f : World -> World) : M unit := fun w => (f w, Ok ()).
Definition liftResult {A} (r : result A) : M A := fun w => (w, r).

Notation "x <- m ;; k" := (bind m (fun x => k))
  (at level 100, m at next level, right associativity).
Notation "m ;;; k" := (bind m (fun _ => k))
  (at level 100, right associativity).

(** [try { body } catch (err) { handler }] *)
Definition tryCatch {A} (body : M A) (handler : exn -> M A) : M A :=
  fun w =>
    match body w with
    | (w', Ok a) => (w', Ok a)
    | (w', Throw e) => handler e w'
    end.

(** [try { body } finally { cleanup }] *)
Definition tryFinally {A} (body : M A) (cleanup : M unit) : M A :=
  fun w =>
    match body w with
    | (w', r) =>
        match cleanup w' with
        | (w'', Ok _) => (w'', r)
        | (w'', Throw e) => (w'', Throw e)
        end
    end.

(** [for (let i = start; i < start + count; i++) body] *)
Fixpoint forRange (start count : nat) (body : nat -> M unit) : M unit :=
  match count with
  | O => ret ()
  | S count' => body start ;;; forRange (S start) count' body
  end.

(** [for (const x of xs) body] *)
Fixpoint forOf {A} (xs : list A) (body : A -> M unit) : M unit :=
  match xs with
  | [] => ret ()
  | x :: xs' => body x ;;; forOf xs' body
  end.

(** State setters. *)
Definition setError (v : jsstring) : M unit :=
  modify (withApp (fun s =>
    mkAppState v (debugInfo s) (password s) (fileContent s) (isProcessing s) (currentBatch s))).
Definition setDebugInfo (v : jsstring) : M unit :=
  modify (withApp (fun s =>
    mkAppState (error s) v (password s) (fileContent s) (isProcessing s) (currentBatch s))).
Definition setPassword (v : jsstring) : M unit :=
  modify (withApp (fun s =>
    mkAppState (error s) (debugInfo s) v (fileContent s) (isProcessing s) (currentBatch s))).
Definition setFileContent (v : list jsstring) : M unit :=
  modify (withApp (fun s =>
    mkAppState (error s) (debugInfo s) (password s) v (isProcessing s) (currentBatch s))).
Definition setIsProcessing (v : bool) : M unit :=
  modify (withApp (fun s =>
    mkAppState (error s) (debugInfo s) (password s) (fileContent s) v (currentBatch s))).
Definition setCurrentBatch (v : option (nat * nat)) : M unit :=
  modify (withApp (fun s =>
    mkAppState (error s) (debugInfo s) (password s) (fileContent s) (isProcessing s) v)).

(** Arrays of records live in the heap and are handled by reference. *)
Definition newArray : M nat :=
  fun w =>
    let l := fresh (dom (heap w)) in
    (withHeap (insert l []) w, Ok l).

Definition readArray (l : nat) : M (list QRCodeData) :=
  fun w =>
    match heap w !! l with
    | Some xs => (w, Ok xs)
    | None => (w, Throw (ErrorObject (lit "TypeError")))
    end.

Definition writeArray (l : nat) (xs : list QRCodeData) : M unit :=
  modify (withHeap (insert l xs)).

(** [array.push(x)] *)
Definition push (l : nat) (x : QRCodeData) : M unit :=
  xs <- readArray l ;; writeArray l (xs ++ [x]).

(** [array.sort(compareFn)]: sorts the array in place and returns the same
    reference. *)
Definition sortInPlace (l : nat) (compareFn : QRCodeData -> QRCodeData -> jsnumber)
  : M nat :=
  xs <- readArray l ;; writeArray l (arraySort compareFn xs) ;;; ret l.

(** ** The component [App] *)

Definition BATCH_SIZE : nat := 2000.
Arguments BATCH_SIZE : simpl never.
Definition BATCH_DELAY : N := 10000. (* 10 seconds in milliseconds *)

(** [Math.ceil(a / b)] for array lengths: the quotient of two integers below
    [2^32] is rounded by less than the distance of a non-integral quotient to
    the next integer, so the ceiling is that of the exact quotient. *)
Definition ceilDiv (a b : nat) : nat := (a + (b - 1)) / b.

(** The state of the first render ([useState]'s initial values), with an
    empty heap and trace. *)
Definition initialWorld : World :=
  mkWorld (mkAppState [] [] [] [] false None) ∅ [].

(** ** Inputs of the concrete runs *)

(** Scenario A of the specification: the lines [1], [2] and [ 3 ]. *)
Definition scenarioA : jsstring :=
  lit "1" ++ [10%N] ++ lit "2" ++ [10%N] ++ lit " 3 ".

(** Scenario C of the specification: a file with the line [12a3]. *)
Definition scenarioC : jsstring :=
  lit "1" ++ [10%N] ++ lit "12a3" ++ [10%N] ++ lit "x".

(** Two identifiers above [2^53], the larger first: [2^53 + 1] is not a
    double, and [parseInt] gives [2^53] for both. *)
Definition aboveLimit : jsstring :=
  lit "9007199254740993" ++ [10%N] ++ lit "9007199254740992".

(** Records with given identifiers and image payloads. *)
Definition recordOf (number payload : jsstring) : QRCodeData :=
  mkQRCodeData (lit "https://check.vant.plus/" ++ number)
    (lit "data:image/png;base64," ++ payload) number.

(** The state after an upload of [lines] was accepted and [pw] was typed. *)
Definition loadedWorld (lines : list jsstring) (pw : jsstring) : World :=
  mkWorld (mkAppState [] [] pw lines false None) ∅ [].

(** A world whose heap holds one array of records, at reference 0. *)
Definition worldWithArray (records : list QRCodeData) : World :=
  mkWorld (mkAppState [] [] [] [] false None) {[ 0%nat := records ]} [].

(** Total functions of the shape of the three libraries, on which the
    handlers can be run on concrete inputs.  They stand for no property of
    SHA-256, of QR encoding or of ZIP serialisation. *)
Definition toyDigest (s : jsstring) : jsstring := rev s.
Definition toyImage (text : jsstring) : jsstring :=
  lit "data:image/png;base64," ++ text.
Definition toyBlob (a : archive) : list N := concat a.*1.
Definition toySHA256 (s : jsstring) : result jsstring := Ok (toyDigest s).
Definition toyToDataURL (text : jsstring) : result jsstring := Ok (toyImage text).
Definition toyGenerateAsync (a : archive) : result (list N) := Ok (toyBlob a).

(** An encoder that rejects every text, as [QRCode.toDataURL] rejects one
    that exceeds the capacity of the symbol. *)
Definition rejectingToDataURL (text : jsstring) : result jsstring :=
  Throw (ErrorObject (lit "The amount of data is too big to be stored in a QR Code")).

(** An encoder with a capacity: it rejects a text of more than 60 code
    units, as [QRCode.toDataURL] rejects one too long for the symbol. *)
Definition cappedToDataURL (text : jsstring) : result jsstring :=
  if (60 <? length text)%nat
  then Throw (ErrorObject (lit "The amount of data is too big to be stored in a QR Code"))
  else Ok (toyImage text).

(** Lists of 2001 lines, which make two batches: 500 times each of the
    identifiers 1 to 4, then one more line, either the identifier 5 or an
    identifier of twenty digits, whose URL exceeds the capacity above. *)
Definition firstBatch : list jsstring :=
  concat (map (fun d => replicate 500 (showNat d)) [1; 2; 3; 4]).
Definition manyLines : list jsstring := firstBatch ++ [lit "5"].
Definition overlongLast : list jsstring :=
  firstBatch ++ [lit "99999999999999999999"].

Section App.

(** The version of the file, and the three libraries: [CryptoJS.SHA256(s)]
    rendered by [toString()] (lowercase hexadecimal), [QRCode.toDataURL] with
    the options of [generateQRCode], and [zip.generateAsync({type: "blob"})].
    Each may throw or reject. *)
Context (version : variant).
Context (SHA256 : jsstring -> result jsstring).
Context (toDataURL : jsstring -> result jsstring).
Context (generateAsync : archive -> result (list N)).

(** The string the identifier is concatenated with: the constant in
    [App.tsx], the [password] argument in [part_000]. *)
Definition secret (password : jsstring) : jsstring :=
  match version with
  | FixedSecret => lit "VAPWHV"
  | UserSecret => password
  end.

(** The value [generateHash] computes. *)
Definition generateHash (number password : jsstring) : result jsstring :=
  let combinedString := number ++ secret password in
  SHA256 combinedString.

Definition callGenerateHash (number password : jsstring) : M jsstring :=
  modify (emit (CallSHA256 (number ++ secret password))) ;;;
  liftResult (generateHash number password).

Definition generateQRCode (url : jsstring) : M jsstring :=
  modify (emit (CallToDataURL url)) ;;;
  liftResult (toDataURL url).

Definition invalidLineMessage (line : jsstring) : jsstring :=
  lit "Linha cont" ++ [233%N] ++ lit "m caracteres inv" ++ [225%N]
  ++ lit "lidos: " ++ [34%N] ++ line ++ [34%N].

Definition loadedMessage (n : nat) : jsstring :=
  lit "Arquivo carregado com " ++ showNat n
  ++ lit " linha(s). Digite a senha para gerar os QR codes.".

(** The lines of an uploaded text: split, trimmed, the empty ones dropped. *)
Definition fileLines (text : jsstring) : list jsstring :=
  List.filter (fun line => negb (length line =? 0)%nat)
    (map trim (splitLines text)).

(** The body of the validation loop. *)
Definition validateLine (line : jsstring) : M unit :=
  let number := removeWhiteSpace line in
  if negb (allDigits number)
  then throw (ErrorObject (invalidLineMessage line))
  else ret ().

(** [handleFileUpload]; [file] is the chosen file, if any, given by what
    [file.text()] resolves to or is rejected with. *)
Definition handleFileUpload (file : option (result jsstring)) : M unit :=
  match file with
  | None => ret ()
  | Some fileText =>
      tryCatch
        (text <- liftResult fileText ;;
         let lines := fileLines text in
         (* Validate all lines first *)
         forOf lines validateLine ;;;
         setFileContent lines ;;;
         setDebugInfo (loadedMessage (length lines)) ;;;
         setError [])
        (fun err =>
           setError
             (match err with
              | ErrorObject message => message
              | Thrown _ => lit "Erro ao processar arquivo"
              end) ;;;
           setFileContent [])
  end.

(** [fileContent[i]]; the method call on [undefined] that an index out of
    range would lead to throws a [TypeError]. *)
Definition lineAt (fileContent : list jsstring) (i : nat) : M jsstring :=
  match fileContent !! i with
  | Some line => ret line
  | None => throw (ErrorObject (lit "TypeError"))
  end.

Definition urlOf (number hash : jsstring) : jsstring :=
  lit "https://check.vant.plus/" ++ number ++ lit "-" ++ hash.

(** The body of the loop of [processBatch]. *)
Definition encodeInto (fileContent : list jsstring) (password : jsstring)
  (batchQRCodes : nat) (i : nat) : M unit :=
  line <- lineAt fileContent i ;;
  let number := removeWhiteSpace line in
  hash <- callGenerateHash number password ;;
  let url := urlOf number hash in
  qrDataUrl <- generateQRCode url ;;
  push batchQRCodes (mkQRCodeData url qrDataUrl number).

(** [processBatch]; [fileContent] is the state the handler closed over. *)
Definition processBatch (fileContent : list jsstring)
  (startIndex endIndex : nat) (password : jsstring) : M nat :=
  batchQRCodes <- newArray ;;
  forRange startIndex (endIndex - startIndex)
    (encodeInto fileContent password batchQRCodes) ;;;
  ret batchQRCodes.

Definition folderNameOf (start end_ : nat) : jsstring :=
  lit "QR Codes " ++ showNat start ++ lit " - " ++ showNat end_.

(** The name of a record's image in the folder. *)
Definition imageName (number : jsstring) : jsstring :=
  match version with
  | FixedSecret => number ++ lit ".png"
  | UserSecret => lit "qrcode_" ++ number ++ lit ".png"
  end.

(** [(a, b) => parseInt(a.number) - parseInt(b.number)] *)
Definition compareByNumber (a b : QRCodeData) : jsnumber :=
  numSub (parseInt (number a)) (parseInt (number b)).

(** The key the comparator sorts by: the double [parseInt] returns, with
    the infinities placed beyond the finite doubles. *)
Definition doubleKey (r : QRCodeData) : Z :=
  match parseInt (number r) with
  | Num z => z
  | PosInf => 2 ^ 1024
  | NegInf => - 2 ^ 1024
  | NaN => 0
  end.

Definition addImage (folder : jsstring) (zip : archive) (qrCode : QRCodeData)
  : archive :=
  let base64Data :=
    replacePrefix (lit "data:image/png;base64,") (qrDataUrl qrCode) in
  zipFile zip folder (imageName (number qrCode)) base64Data.

(** [downloadBatch]; [qrCodes] is the reference of the caller's array.  The
    anchor element is created, clicked and removed: what remains is the
    download of the archive under the anchor's name. *)
Definition downloadBatch (qrCodes : nat) (batchNumber start end_ : nat)
  : M unit :=
  let zip : archive := [] in
  let folderName := folderNameOf start end_ in
  match zipFolder zip [] folderName with
  | None => throw (ErrorObject (lit "Erro ao criar pasta ZIP"))
  | Some (zip, folder) =>
      (* Ordenar os QR codes pelo numero antes de adicionar ao ZIP *)
      sortedQRCodes <- sortInPlace qrCodes compareByNumber ;;
      records <- readArray sortedQRCodes ;;
      let zip := fold_left (addImage folder) records zip in
      modify (emit (CallGenerateAsync zip)) ;;;
      content <- liftResult (generateAsync zip) ;;
      modify (emit (Download (folderName ++ lit ".zip") content))
  end.

Definition processingMessage (verb : jsstring) (batchNumber totalBatches
  displayStart displayEnd : nat) : jsstring :=
  verb ++ lit " lote " ++ showNat (batchNumber + 1) ++ lit "/"
  ++ showNat totalBatches ++ lit ": c" ++ [243%N] ++ lit "digos "
  ++ showNat displayStart ++ lit " at" ++ [233%N] ++ lit " "
  ++ showNat displayEnd.

Definition waitingMessage (batchNumber : nat) : jsstring :=
  lit "Lote " ++ showNat (batchNumber + 1) ++ lit " conclu" ++ [237%N]
  ++ lit "do. Aguardando 10 segundos antes do pr" ++ [243%N]
  ++ lit "ximo lote...".

Definition doneMessage (totalItems totalBatches : nat) : jsstring :=
  lit "Processamento conclu" ++ [237%N] ++ lit "do. Todos os "
  ++ showNat totalItems ++ lit " QR codes foram gerados e baixados em "
  ++ showNat totalBatches ++ lit " lotes.".

Definition noPasswordMessage : jsstring :=
  lit "Por favor, digite uma senha para gerar os QR codes".
Definition noFileMessage : jsstring :=
  lit "Por favor, carregue um arquivo primeiro".
Definition runFailedMessage : jsstring :=
  lit "Erro ao gerar ou baixar QR codes".

(** The body of the [for] loop over the batches. *)
Definition batchStep (fileContent : list jsstring) (password : jsstring)
  (totalItems totalBatches batchNumber : nat) : M unit :=
  let startIndex := batchNumber * BATCH_SIZE in
  let endIndex := Nat.min (startIndex + BATCH_SIZE) totalItems in
  let displayStart := startIndex + 1 in
  let displayEnd := endIndex in
  setCurrentBatch (Some (displayStart, displayEnd)) ;;;
  setDebugInfo (processingMessage (lit "Processando") batchNumber totalBatches
                  displayStart displayEnd) ;;;
  batchQRCodes <- processBatch fileContent startIndex endIndex password ;;
  setDebugInfo (processingMessage (lit "Baixando") batchNumber totalBatches
                  displayStart displayEnd) ;;;
  downloadBatch batchQRCodes (batchNumber + 1) displayStart displayEnd ;;;
  if batchNumber <? totalBatches - 1
  then setDebugInfo (waitingMessage batchNumber) ;;;
       modify (emit (SetTimeout BATCH_DELAY))
  else ret ().

(** The [try] block of [generateAndDownloadQRCodes]. *)
Definition runBatches (fileContent : list jsstring) (password : jsstring)
  : M unit :=
  setIsProcessing true ;;;
  setError [] ;;;
  let totalItems := length fileContent in
  let totalBatches := ceilDiv totalItems BATCH_SIZE in
  forRange 0 totalBatches
    (batchStep fileContent password totalItems totalBatches) ;;;
  setDebugInfo (doneMessage totalItems totalBatches) ;;;
  setCurrentBatch None.

(** [generateAndDownloadQRCodes]: the handler reads [fileContent] and
    [password] from the state of the render it was created in. *)
Definition generateAndDownloadQRCodes : M unit :=
  fun w =>
    let fileContent := fileContent (appState w) in
    let password := password (appState w) in
    (if match version with
        | UserSecret => bool_decide (password = [])
        | FixedSecret => false
        end
     then setError noPasswordMessage
     else if (length fileContent =? 0)%nat
     then setError noFileMessage
     else
       tryFinally
         (tryCatch
            (runBatches fileContent password)
            (fun err =>
               setError runFailedMessage ;;;
               modify (emit (ConsoleError err))))
         (setIsProcessing false)) w.

(** ** The handlers in closed form

    What the loops above compute, as functions of the captured state: these
    are the terms the theorems below compare the handlers with. *)

(** The test a line must pass to be loaded. *)
Definition validLine (line : jsstring) : Prop :=
  allDigits (removeWhiteSpace line) = true.

(** The first line the validation loop refuses. *)
Definition firstInvalid (lines : list jsstring) : option jsstring :=
  List.find (fun line => negb (allDigits (removeWhiteSpace line))) lines.

(** [array.slice(a, b)] for [a <= b <= length]. *)
Definition slice {A} (a b : nat) (l : list A) : list A :=
  take (b - a) (drop a l).

(** Index bounds and 1-based display range of batch [k] among [n] items. *)
Definition batchBounds (n k : nat) : nat * nat :=
  (k * BATCH_SIZE, Nat.min (k * BATCH_SIZE + BATCH_SIZE) n).
Definition displayRange (n k : nat) : nat * nat :=
  ((batchBounds n k).1 + 1, (batchBounds n k).2).
Definition batchLines (fileContent : list jsstring) (k : nat) : list jsstring :=
  slice (batchBounds (length fileContent) k).1
        (batchBounds (length fileContent) k).2 fileContent.

(** One iteration of the loop of [processBatch]: the trace it leaves and the
    record it pushes, or the exception that ends the loop. *)
Definition encodeLine (password line : jsstring)
  : list event * result QRCodeData :=
  let number := removeWhiteSpace line in
  match generateHash number password with
  | Throw e => ([CallSHA256 (number ++ secret password)], Throw e)
  | Ok hash =>
      let url := urlOf number hash in
      ([CallSHA256 (number ++ secret password); CallToDataURL url],
       match toDataURL url with
       | Throw e => Throw e
       | Ok qrDataUrl => Ok (mkQRCodeData url qrDataUrl number)
       end)
  end.

(** The whole loop over some lines: trace, records pushed, and the exception
    if one ended it. *)
Fixpoint encodeLines (password : jsstring) (lines : list jsstring)
  : list event * list QRCodeData * option exn :=
  match lines with
  | [] => ([], [], None)
  | line :: lines' =>
      match encodeLine password line with
      | (tr, Throw e) => (tr, [], Some e)
      | (tr, Ok r) =>
          let '(tr', rs, e) := encodeLines password lines' in
          (tr ++ tr', r :: rs, e)
      end
  end.

(** The archive [downloadBatch] builds from an array of records. *)
Definition archiveOf (start end_ : nat) (records : list QRCodeData) : archive :=
  let folder := folderNameOf start end_ ++ [47%N] in
  fold_left (addImage folder) (arraySort compareByNumber records)
    [(folder, ZipFolder)].

(** The path and the entry of a record's image in the folder. *)
Definition imagePath (folder : jsstring) (r : QRCodeData) : jsstring :=
  folder ++ imageName (number r).
Definition imageEntry (folder : jsstring) (r : QRCodeData)
  : jsstring * zipEntry :=
  (imagePath folder r,
   ZipFile (replacePrefix (lit "data:image/png;base64,") (qrDataUrl r)) true).

(** The packaging of one batch: trace and outcome. *)
Definition packageBatch (start end_ : nat) (records : list QRCodeData)
  : list event * result unit :=
  let zip := archiveOf start end_ records in
  match generateAsync zip with
  | Throw e => ([CallGenerateAsync zip], Throw e)
  | Ok content =>
      ([CallGenerateAsync zip;
        Download (folderNameOf start end_ ++ lit ".zip") content], Ok ())
  end.

(** One batch of a run over [fileContent]: trace and outcome. *)
Definition batchOutcome (fileContent : list jsstring) (password : jsstring)
  (k : nat) : list event * result unit :=
  let n := length fileContent in
  match encodeLines password (batchLines fileContent k) with
  | (tr, _, Some e) => (tr, Throw e)
  | (tr, records, None) =>
      match packageBatch (displayRange n k).1 (displayRange n k).2 records with
      | (tr', Throw e) => (tr ++ tr', Throw e)
      | (tr', Ok _) =>
          (tr ++ tr' ++
           (if k <? ceilDiv n BATCH_SIZE - 1 then [SetTimeout BATCH_DELAY] else []),
           Ok ())
      end
  end.

Definition batchTrace (fileContent : list jsstring) (password : jsstring)
  (k : nat) : list event :=
  (batchOutcome fileContent password k).1.

(** The batches [ks] in turn, up to the first that fails. *)
Fixpoint batchesOutcome (fileContent : list jsstring) (password : jsstring)
  (ks : list nat) : list event * result unit :=
  match ks with
  | [] => ([], Ok ())
  | k :: ks' =>
      match batchOutcome fileContent password k with
      | (tr, Throw e) => (tr, Throw e)
      | (tr, Ok _) =>
          let '(tr', r) := batchesOutcome fileContent password ks' in
          (tr ++ tr', r)
      end
  end.

(** Two worlds with the same loaded file and password. *)
Definition sameInputs (w w' : World) : Prop :=
  fileContent (appState w') = fileContent (appState w) /\
  password (appState w') = password (appState w).

(** The arrays of [w] are arrays of [w'], with the same contents. *)
Definition heapKept (w w' : World) : Prop :=
  forall l xs, heap w !! l = Some xs -> heap w' !! l = Some xs.

(** The entries of an archive that are image files, and those that are
    folders. *)
Definition isZipFile (entry : jsstring * zipEntry) : bool :=
  match entry.2 with
  | ZipFile _ _ => true
  | ZipFolder => false
  end.
Definition zipFiles (a : archive) : archive := List.filter isZipFile a.
Definition zipFolders (a : archive) : archive :=
  List.filter (fun entry => negb (isZipFile entry)) a.

(** The name under which batch [k] of [n] items is downloaded. *)
Definition batchZipName (n k : nat) : jsstring :=
  folderNameOf (displayRange n k).1 (displayRange n k).2 ++ lit ".zip".

(** The record of a line when the libraries return [sha s] and [qr u]. *)
Definition recordFor (sha qr : jsstring -> jsstring) (password line : jsstring)
  : QRCodeData :=
  let number := removeWhiteSpace line in
  let url := urlOf number (sha (number ++ secret password)) in
  mkQRCodeData url (qr url) number.

(** The record [processBatch] pushes for a line whose hashing and encoding
    succeed: the identifier is the line without white space, the URL is built
    from the identifier and from the hash the library returned, and the image
    is the one the library returned for that URL. *)
Definition encodes (password line : jsstring) (r : QRCodeData) : Prop :=
  number r = removeWhiteSpace line /\
  exists hash,
    generateHash (number r) password = Ok hash /\
    url r = urlOf (number r) hash /\
    toDataURL (url r) = Ok (qrDataUrl r).

(** The library calls that made some records, in order: for each record the
    hashing of its identifier followed by the secret, then the encoding of
    its URL. *)
Definition recordEvents (password : jsstring) (records : list QRCodeData)
  : list event :=
  flat_map (fun r => [CallSHA256 (number r ++ secret password);
                      CallToDataURL (url r)]) records.

(** The comparator [cmp] orders the elements of [l] by [key]. *)
Definition ordersBy {A} (cmp : A -> A -> jsnumber) (key : A -> Z) (l : list A)
  : Prop :=
  forall x y, x ∈ l -> y ∈ l -> isPositive (cmp x y) = (key y <? key x)%Z.

(** The downloads of a trace, in order. *)
Definition isDownload (ev : event) : bool :=
  match ev with
  | Download _ _ => true
  | _ => false
  end.
Definition downloads (tr : list event) : list event := List.filter isDownload tr.

(** ** The rest of the component

    The handlers as the user reaches them, and the part of the rendered tree
    that depends on the state. *)

(** What the user does: choosing a file (or closing the dialog), typing in
    the password field of [part_000] ([setPassword(e.target.value)]), and
    running [generateAndDownloadQRCodes]. *)
Inductive action : Type :=
  | ChooseFile (file : option (result jsstring))
  | TypePassword (value : jsstring)
  | Generate.

Definition handle (a : action) : M unit :=
  match a with
  | ChooseFile file => handleFileUpload file
  | TypePassword value => setPassword value
  | Generate => generateAndDownloadQRCodes
  end.

(** The world after a sequence of actions, each handler running to its end
    before the next starts. *)
Fixpoint handleAll (actions : list action) (w : World) : World :=
  match actions with
  | [] => w
  | a :: actions' => handleAll actions' (handle a w).1
  end.

(** The three conditional blocks of the JSX: the button (its [disabled]
    attribute and its label), the error box and the information box.  A
    block guarded by an empty string or by [null] is not rendered. *)
Record View : Type := mkView {
  generateButton : option (bool * jsstring);
  errorBox : option jsstring;
  infoBox : option jsstring;
}.

Definition batchLine (currentBatch : option (nat * nat)) : jsstring :=
  match currentBatch with
  | Some (start, end_) =>
      [10%N] ++ lit "Processando c" ++ [243%N] ++ lit "digos " ++ showNat start
      ++ lit " at" ++ [233%N] ++ lit " " ++ showNat end_
  | None => []
  end.

Definition render (s : AppState) : View :=
  mkView
    (if (0 <? length (fileContent s))%nat
     then Some (isProcessing s,
                if isProcessing s then lit "Processando..."
                else lit "Gerar e Baixar QR Codes")
     else None)
    (if bool_decide (error s = []) then None else Some (error s))
    (if bool_decide (debugInfo s = []) && bool_decide (currentBatch s = None)
     then None
     else Some (debugInfo s ++ batchLine (currentBatch s))).

(** [array.join(separator)] *)
Fixpoint joinWith (separator : jsstring) (ls : list jsstring) : jsstring :=
  match ls with
  | [] => []
  | [l] => l
  | l :: ls' => l ++ separator ++ joinWith separator ls'
  end.

(** The texts handed to [QRCode.toDataURL] in a trace, in order. *)
Definition qrTexts (tr : list event) : list jsstring :=
  omap (fun ev => match ev with CallToDataURL text => Some text | _ => None end) tr.

(** The strings handed to [CryptoJS.SHA256] in a trace, in order. *)
Definition hashInputs (tr : list event) : list jsstring :=
  omap (fun ev => match ev with CallSHA256 s => Some s | _ => None end) tr.

(** The downloads and the timers of a trace, in order. *)
Definition isTimeout (ev : event) : bool :=
  match ev with
  | SetTimeout _ => true
  | _ => false
  end.
Definition pacing (tr : list event) : list event :=
  List.filter (fun ev => isDownload ev || isTimeout ev) tr.

(** The name of a download, and a mark for a timer: what a trace shows of
    its pacing when the contents are left out. *)
Definition eventName (ev : event) : jsstring :=
  match ev with
  | Download name _ => name
  | SetTimeout _ => lit "timer"
  | _ => []
  end.


(** The property of a stored line: trimmed, non-empty, and made of digits
    once its white space is removed. *)
Definition loadedLine (line : jsstring) : Prop :=
  validLine line /\ line <> [] /\ trim line = line.


(** * Proofs *)

(** Unfolds the monad's operations and the primitive effects. *)
Ltac unfold_M :=
  cbv beta iota zeta delta
    [bind ret throw modify liftResult emit push readArray writeArray
     sortInPlace withHeap withApp tryCatch tryFinally
     setError setDebugInfo setPassword setFileContent setIsProcessing
     setCurrentBatch appState heap trace].

(** Membership in the left part, or as the first element of the right part,
    of a concatenation. *)
Ltac in_app_l := apply elem_of_app; by left.
Ltac in_app_r := apply elem_of_app; right; by apply list_elem_of_here.

(** ** The parser *)

Lemma trimStart_head (s : jsstring) :
  match trimStart s with
  | [] => True
  | c :: _ => isWhiteSpace c = false
  end.
Proof.
  induction s as [|c s IH]; simpl; [done|].
  destruct (isWhiteSpace c) eqn:E; [done | by rewrite E].
Qed.

Lemma trimStart_snoc (s : jsstring) (c : N) :
  isWhiteSpace c = false -> exists z, trimStart (s ++ [c]) = z ++ [c].
Proof.
  intros Hc. induction s as [|d s IH]; simpl.
  - rewrite Hc. by exists [].
  - destruct (isWhiteSpace d); [done | by exists (d :: s)].
Qed.

(** A trimmed string that is not empty starts with a code unit that is not
    white space. *)
Lemma trim_head (s : jsstring) (c : N) (r : jsstring) :
  trim s = c :: r -> isWhiteSpace c = false.
Proof.
  unfold trim, trimEnd. pose proof (trimStart_head s) as H.
  destruct (trimStart s) as [|d t]; simpl; [done|].
  destruct (trimStart_snoc (rev t) d H) as [z ->].
  rewrite rev_unit. by intros [= <- _].
Qed.

Lemma fileLines_spec (text line : jsstring) :
  line ∈ fileLines text ->
  line <> [] /\ exists s, s ∈ splitLines text /\ line = trim s.
Proof.
  unfold fileLines. rewrite list_elem_of_In, filter_In, in_map_iff.
  intros [(s & <- & Hs) Hlen]. split.
  - destruct (trim s); [done | done].
  - exists s. by rewrite list_elem_of_In.
Qed.

(** After white space is removed, a loaded line still has a code unit. *)
Lemma fileLines_number_nonempty (text line : jsstring) :
  line ∈ fileLines text -> removeWhiteSpace line <> [].
Proof.
  intros (Hne & s & _ & ->)%fileLines_spec.
  destruct (trim s) as [|c r] eqn:E; [done|].
  unfold removeWhiteSpace. simpl. by rewrite (trim_head _ _ _ E).
Qed.

Lemma forallb_isDigit_false (s : jsstring) :
  forallb isDigit s = false <-> exists c, c ∈ s /\ isDigit c = false.
Proof.
  induction s as [|d s IH]; simpl.
  - split; [done | intros (c & Hc & _); by apply not_elem_of_nil in Hc].
  - rewrite andb_false_iff, IH. split.
    + intros [Hd | (c & Hc & Hd)]; [exists d | exists c];
        rewrite elem_of_cons; eauto.
    + intros (c & [-> | Hc]%elem_of_cons & Hd); eauto.
Qed.

Lemma allDigits_false (s : jsstring) :
  s <> [] ->
  allDigits s = false <-> exists c, c ∈ s /\ isDigit c = false.
Proof.
  intros Hne. destruct s as [|d s]; [done|].
  unfold allDigits. apply forallb_isDigit_false.
Qed.

Lemma firstInvalid_None (lines : list jsstring) :
  firstInvalid lines = None <-> Forall validLine lines.
Proof.
  unfold firstInvalid, validLine. induction lines as [|l ls IH]; simpl.
  - split; [constructor | done].
  - destruct (allDigits (removeWhiteSpace l)) eqn:E; simpl.
    + rewrite IH. split; [by constructor | by inversion 1].
    + split; [done | inversion 1; congruence].
Qed.

Lemma firstInvalid_Some (lines : list jsstring) (bad : jsstring) :
  firstInvalid lines = Some bad ->
  exists before after,
    lines = before ++ bad :: after /\ Forall validLine before /\
    allDigits (removeWhiteSpace bad) = false.
Proof.
  unfold firstInvalid, validLine. induction lines as [|l ls IH]; simpl; [done|].
  destruct (allDigits (removeWhiteSpace l)) eqn:E; simpl.
  - intros (before & after & -> & Hb & Hbad)%IH.
    exists (l :: before), after. split_and!; [done | by constructor | done].
  - intros [= <-]. exists [], ls. split_and!; [done | constructor | done].
Qed.

Lemma forOf_validateLine (lines : list jsstring) (w : World) :
  forOf lines validateLine w =
  match firstInvalid lines with
  | None => (w, Ok ())
  | Some bad => (w, Throw (ErrorObject (invalidLineMessage bad)))
  end.
Proof.
  unfold firstInvalid. induction lines as [|l ls IH]; simpl; [done|].
  unfold bind, validateLine.
  destruct (allDigits (removeWhiteSpace l)); simpl; [apply IH | done].
Qed.

(** The record of a line carries the line without its white space, and is
    determined by it. *)
Lemma encodeLine_record (pw line : jsstring) (tr : list event) (r : QRCodeData) :
  encodeLine pw line = (tr, Ok r) ->
  number r = removeWhiteSpace line /\
  exists hash,
    generateHash (number r) pw = Ok hash /\
    url r = urlOf (number r) hash /\
    toDataURL (url r) = Ok (qrDataUrl r).
Proof.
  unfold encodeLine.
  destruct (generateHash _ pw) as [hash|e] eqn:Hhash; [|done].
  destruct (toDataURL _) as [qr|e] eqn:Hqr; [|done].
  intros [= _ <-]. cbn [number url qrDataUrl]. eauto.
Qed.

(** C2 (amended): when every trimmed non-empty line of the text is made of
    digits once its white space is removed, the upload is accepted and the
    stored sequence is exactly those trimmed lines, in the order of the file,
    with the white space inside a line kept; the error is cleared, the count
    of lines is reported, and nothing else changes.  The white space is
    removed when a stored line is encoded: the identifier of its record is
    the line without white space, a string of digits. *)
Theorem handleFileUpload_accepts (text : jsstring) (w : World) :
  Forall validLine (fileLines text) ->
  exists w',
    handleFileUpload (Some (Ok text)) w = (w', Ok ()) /\
    fileContent (appState w') = fileLines text /\
    error (appState w') = [] /\
    debugInfo (appState w') = loadedMessage (length (fileLines text)) /\
    password (appState w') = password (appState w) /\
    heap w' = heap w /\ trace w' = trace w /\
    forall pw line tr r,
      line ∈ fileContent (appState w') -> encodeLine pw line = (tr, Ok r) ->
      number r = removeWhiteSpace line /\ allDigits (number r) = true.
Proof.
  intros Hvalid. pose proof Hvalid as Hnone%firstInvalid_None. eexists.
  unfold handleFileUpload, tryCatch, liftResult. unfold bind at 1. unfold bind at 1.
  rewrite forOf_validateLine, Hnone. simpl. split_and!; try done.
  intros pw line tr r Hline [Hnum _]%encodeLine_record. split; [done|].
  rewrite Hnum. rewrite List.Forall_forall in Hvalid. apply Hvalid.
  by apply list_elem_of_In.
Qed.

(** C4: when some trimmed non-empty line holds, once its white space is
    removed, a code unit that is not a digit, the upload is rejected as a
    whole: the error is the text [Linha contém caracteres inválidos: ]
    followed by the first such line, as trimmed, between double quotes (the
    lines before it are valid), so the error box is rendered with it, and
    the stored list of identifiers is empty. *)
Theorem handleFileUpload_rejects (text : jsstring) (w : World) :
  Exists (fun line => exists c, c ∈ removeWhiteSpace line /\ isDigit c = false)
    (fileLines text) ->
  exists before bad after w',
    fileLines text = before ++ bad :: after /\
    Forall validLine before /\
    (exists c, c ∈ removeWhiteSpace bad /\ isDigit c = false) /\
    handleFileUpload (Some (Ok text)) w = (w', Ok ()) /\
    error (appState w')
    = lit "Linha cont" ++ [233%N] ++ lit "m caracteres inv" ++ [225%N]
      ++ lit "lidos: " ++ [34%N] ++ bad ++ [34%N] /\
    error (appState w') <> [] /\
    errorBox (render (appState w')) = Some (error (appState w')) /\
    fileContent (appState w') = [] /\
    heap w' = heap w /\ trace w' = trace w.
Proof.
  intros Hex.
  destruct (firstInvalid (fileLines text)) as [bad|] eqn:Hfirst.
  - destruct (firstInvalid_Some _ _ Hfirst) as (before & after & Heq & Hb & Hbad).
    assert (invalidLineMessage bad <> []) as Hmsg.
    { unfold invalidLineMessage. intros H%(f_equal length).
      rewrite length_app in H. change (length (lit "Linha cont")) with 10 in H.
      cbn in H. lia. }
    exists before, bad, after. eexists. split_and!; [done | done | | | | | | | |].
    + apply allDigits_false; [|done].
      apply (fileLines_number_nonempty text). rewrite Heq.
      apply elem_of_app. right. apply list_elem_of_here.
    + unfold handleFileUpload, tryCatch, liftResult.
      unfold bind at 1. unfold bind at 1.
      rewrite forOf_validateLine, Hfirst. simpl. done.
    + done.
    + done.
    + unfold render. cbn [errorBox appState error].
      by rewrite bool_decide_eq_false_2.
    + done.
    + done.
    + done.
  - exfalso. apply firstInvalid_None in Hfirst.
    apply List.Exists_exists in Hex as (line & Hin & c & Hc & Hd).
    rewrite List.Forall_forall in Hfirst. specialize (Hfirst line Hin).
    unfold validLine in Hfirst.
    assert (allDigits (removeWhiteSpace line) = false); [|congruence].
    apply allDigits_false; [|eauto].
    intros Hnil. rewrite Hnil in Hc. by apply not_elem_of_nil in Hc.
Qed.

(** ** One batch *)

Lemma world_eta (w : World) : mkWorld (appState w) (heap w) (trace w) = w.
Proof. by destruct w. Qed.

Lemma encodeInto_spec (fc : list jsstring) (pw : jsstring) (l i : nat)
    (acc : list QRCodeData) (line : jsstring) (w : World) :
  heap w !! l = Some acc -> fc !! i = Some line ->
  encodeInto fc pw l i w =
  match encodeLine pw line with
  | (tr, Ok r) =>
      (mkWorld (appState w) (<[l := acc ++ [r]]> (heap w)) (trace w ++ tr), Ok ())
  | (tr, Throw e) => (mkWorld (appState w) (heap w) (trace w ++ tr), Throw e)
  end.
Proof.
  intros Hl Hi.
  unfold encodeInto, lineAt, encodeLine, callGenerateHash, generateQRCode.
  unfold bind at 1. rewrite Hi.
  destruct w as [st hp tr]; simpl in Hl. unfold_M.
  destruct (generateHash _ pw) as [hash|e]; [|done].
  destruct (toDataURL _) as [qr|e].
  - by rewrite Hl, <- app_assoc.
  - by rewrite <- app_assoc.
Qed.

Lemma forRange_encodeInto (fc : list jsstring) (pw : jsstring) (l : nat)
    (n i : nat) (acc : list QRCodeData) (w : World) :
  heap w !! l = Some acc -> i + n <= length fc ->
  forRange i n (encodeInto fc pw l) w =
  let '(tr, rs, e) := encodeLines pw (take n (drop i fc)) in
  (mkWorld (appState w) (<[l := acc ++ rs]> (heap w)) (trace w ++ tr),
   match e with None => Ok () | Some e => Throw e end).
Proof.
  revert i acc w. induction n as [|n IH]; intros i acc w Hl Hlen.
  - simpl. unfold ret. rewrite !app_nil_r, insert_id by done.
    by rewrite world_eta.
  - destruct (lookup_lt_is_Some_2 fc i) as [line Hline]; [lia|].
    rewrite (drop_S _ _ _ Hline). simpl. unfold bind at 1.
    rewrite (encodeInto_spec _ _ _ _ acc line) by done.
    destruct (encodeLine pw line) as [tr [r|e]].
    + rewrite (IH (S i) (acc ++ [r])); [|by simpl; rewrite lookup_insert_eq | lia].
      destruct (encodeLines pw (take n (drop (S i) fc))) as [[tr' rs] e].
      simpl. by rewrite insert_insert_eq, <- !app_assoc.
    + by rewrite app_nil_r, insert_id.
Qed.

(** [processBatch] allocates a fresh array and fills it with the records of
    the lines of the slice, up to the first that fails. *)
Lemma processBatch_spec (fc : list jsstring) (pw : jsstring) (s e : nat)
    (w : World) :
  s <= e <= length fc ->
  processBatch fc s e pw w =
  let l := fresh (dom (heap w)) in
  let '(tr, rs, err) := encodeLines pw (slice s e fc) in
  (mkWorld (appState w) (<[l := rs]> (heap w)) (trace w ++ tr),
   match err with None => Ok l | Some e => Throw e end).
Proof.
  intros Hse. unfold processBatch, newArray. unfold bind at 1. simpl.
  unfold bind at 1.
  rewrite (forRange_encodeInto _ _ _ _ _ []);
    [| by simpl; rewrite lookup_insert_eq | lia].
  unfold slice. destruct (encodeLines pw _) as [[tr rs] err]. simpl.
  rewrite insert_insert_eq. by destruct err.
Qed.

Lemma zipHas_nil (path : jsstring) : zipHas path [] = false.
Proof. apply bool_decide_eq_false_2, not_elem_of_nil. Qed.

(** [downloadBatch] sorts the caller's array in place, builds the archive
    from the sorted records and downloads it. *)
Lemma downloadBatch_spec (l bn s e : nat) (rs : list QRCodeData) (w : World) :
  heap w !! l = Some rs ->
  downloadBatch l bn s e w =
  (mkWorld (appState w) (<[l := arraySort compareByNumber rs]> (heap w))
     (trace w ++ (packageBatch s e rs).1),
   (packageBatch s e rs).2).
Proof.
  intros Hl. unfold downloadBatch, zipFolder.
  rewrite zipHas_nil. cbn [zipSet app].
  destruct w as [st hp tr]; simpl in Hl.
  unfold packageBatch, archiveOf. unfold_M.
  rewrite Hl, lookup_insert_eq.
  destruct (generateAsync _) as [content|err]; [|done].
  by rewrite <- app_assoc.
Qed.

(** ** The loop over the batches *)

Lemma BATCH_SIZE_pos : 0 < BATCH_SIZE.
Proof. unfold BATCH_SIZE. lia. Qed.

Lemma ceilDiv_lt (n b k : nat) : 0 < b -> k < ceilDiv n b <-> k * b < n.
Proof.
  intros Hb. unfold ceilDiv. split.
  - intros Hk.
    pose proof (Nat.Div0.mul_div_le (n + (b - 1)) b). nia.
  - intros Hk. apply Nat.lt_le_trans with (S k); [lia|].
    apply Nat.div_le_lower_bound; [lia | nia].
Qed.

Lemma batchBounds_ok (n k : nat) :
  k < ceilDiv n BATCH_SIZE ->
  (batchBounds n k).1 < (batchBounds n k).2 <= n.
Proof.
  intros Hk%ceilDiv_lt; [|apply BATCH_SIZE_pos].
  pose proof BATCH_SIZE_pos. unfold batchBounds. simpl. lia.
Qed.

Lemma fresh_heap_None (w : World) : heap w !! fresh (dom (heap w)) = None.
Proof. apply not_elem_of_dom, is_fresh. Qed.

Lemma heapKept_insert (st st' : AppState) (hp : gmap nat (list QRCodeData))
    (tr tr' : list event) (l : nat) (xs : list QRCodeData) :
  hp !! l = None ->
  heapKept (mkWorld st hp tr) (mkWorld st' (<[l := xs]> hp) tr').
Proof.
  intros Hnone l' xs' Hl'. cbn [heap] in *.
  rewrite lookup_insert_ne; [done | congruence].
Qed.

Lemma batchStep_spec (fc : list jsstring) (pw : jsstring) (k : nat) (w : World) :
  k < ceilDiv (length fc) BATCH_SIZE ->
  exists w',
    batchStep fc pw (length fc) (ceilDiv (length fc) BATCH_SIZE) k w
      = (w', (batchOutcome fc pw k).2) /\
    trace w' = trace w ++ batchTrace fc pw k /\
    sameInputs w w' /\ heapKept w w' /\
    error (appState w') = error (appState w) /\
    isProcessing (appState w') = isProcessing (appState w).
Proof.
  intros Hk. pose proof (batchBounds_ok _ _ Hk) as Hb.
  unfold batchStep, batchTrace, batchOutcome, batchLines, displayRange.
  unfold batchBounds in *. cbn [fst snd] in *.
  set (s := k * BATCH_SIZE) in *.
  set (e := Nat.min (s + BATCH_SIZE) (length fc)) in *.
  pose proof (fresh_heap_None w) as Hfresh.
  destruct w as [st hp tr]. cbn [heap] in Hfresh.
  unfold bind at 1. unfold bind at 1. unfold bind at 1.
  unfold setCurrentBatch at 1. unfold setDebugInfo at 1.
  cbv beta iota zeta delta [modify withApp appState heap trace].
  rewrite processBatch_spec by lia. cbn [heap appState trace].
  destruct (encodeLines pw (slice s e fc)) as [[tr1 rs] [err|]].
  { eexists. split; [done|]. cbn [fst snd trace appState heap].
    split_and!; try done. by apply heapKept_insert. }
  unfold bind at 1. unfold bind at 1. unfold setDebugInfo at 1.
  cbv beta iota zeta delta [modify withApp appState heap trace].
  erewrite downloadBatch_spec; [|by cbn [heap]; rewrite lookup_insert_eq].
  cbn [heap appState trace].
  destruct (packageBatch (s + 1) e rs) as [tr2 [[]|err]]; cbn [fst snd].
  - destruct (k <? ceilDiv (length fc) BATCH_SIZE - 1); unfold_M.
    + eexists. split; [done|]. cbn [fst snd trace appState heap].
      rewrite insert_insert_eq.
      split_and!; try done; [by rewrite <- !app_assoc|]. by apply heapKept_insert.
    + eexists. split; [done|]. cbn [fst snd trace appState heap].
      rewrite insert_insert_eq.
      split_and!; try done; [by rewrite app_nil_r, <- !app_assoc|].
      by apply heapKept_insert.
  - eexists. split; [done|]. cbn [fst snd trace appState heap].
    rewrite insert_insert_eq.
    split_and!; try done; [by rewrite <- !app_assoc|]. by apply heapKept_insert.
Qed.

Lemma sameInputs_trans (w1 w2 w3 : World) :
  sameInputs w1 w2 -> sameInputs w2 w3 -> sameInputs w1 w3.
Proof. unfold sameInputs. intros [] []. split; congruence. Qed.

Lemma forRange_batchStep (fc : list jsstring) (pw : jsstring) (m k0 : nat)
    (w : World) :
  k0 + m <= ceilDiv (length fc) BATCH_SIZE ->
  exists w',
    forRange k0 m (batchStep fc pw (length fc) (ceilDiv (length fc) BATCH_SIZE)) w
      = (w', (batchesOutcome fc pw (seq k0 m)).2) /\
    trace w' = trace w ++ (batchesOutcome fc pw (seq k0 m)).1 /\
    sameInputs w w' /\ heapKept w w' /\
    error (appState w') = error (appState w) /\
    isProcessing (appState w') = isProcessing (appState w).
Proof.
  revert k0 w. induction m as [|m IH]; intros k0 w Hm.
  - exists w. cbn. rewrite app_nil_r.
    split_and!; [done | done | by split | by intros ?? | done | done].
  - destruct (batchStep_spec fc pw k0 w) as (w1 & Hstep & Htr & Hin & Hheap & Herr & Hproc);
      [lia|].
    cbn [forRange seq batchesOutcome]. unfold bind at 1. rewrite Hstep.
    unfold batchTrace in Htr.
    destruct (batchOutcome fc pw k0) as [tr1 [[]|e]]; cbn [fst snd] in *.
    + destruct (IH (S k0) w1) as (w2 & Hloop & Htr2 & Hin2 & Hheap2 & Herr2 & Hproc2);
        [lia|].
      exists w2. rewrite Hloop.
      destruct (batchesOutcome fc pw (seq (S k0) m)) as [tr2 r]; cbn [fst snd] in *.
      split_and!; [done | by rewrite Htr2, Htr, <- app_assoc | | | congruence | congruence].
      * by eapply sameInputs_trans.
      * intros l xs Hl. by apply Hheap2, Hheap.
    + exists w1. by split_and!.
Qed.

(** ** A whole run *)

Lemma batchesOutcome_Ok (fc : list jsstring) (pw : jsstring) (m k0 : nat) :
  (forall k, k0 <= k < k0 + m -> (batchOutcome fc pw k).2 = Ok ()) ->
  batchesOutcome fc pw (seq k0 m)
  = (concat (map (batchTrace fc pw) (seq k0 m)), Ok ()).
Proof.
  revert k0. induction m as [|m IH]; intros k0 Hok; [done|].
  cbn [seq batchesOutcome map concat]. unfold batchTrace at 1.
  specialize (Hok k0 ltac:(lia)) as Hk0.
  destruct (batchOutcome fc pw k0) as [tr [[]|e]]; [|done].
  rewrite IH; [done|]. intros k Hk. apply Hok. lia.
Qed.

Lemma batchesOutcome_first_failure (fc : list jsstring) (pw : jsstring)
    (m k0 j : nat) (e : exn) :
  j < m ->
  (forall k, k0 <= k < k0 + j -> (batchOutcome fc pw k).2 = Ok ()) ->
  (batchOutcome fc pw (k0 + j)).2 = Throw e ->
  batchesOutcome fc pw (seq k0 m)
  = (concat (map (batchTrace fc pw) (seq k0 j)) ++ batchTrace fc pw (k0 + j),
     Throw e).
Proof.
  revert k0 j. induction m as [|m IH]; intros k0 j Hj Hok Hfail; [lia|].
  cbn [seq batchesOutcome]. destruct j as [|j].
  - rewrite Nat.add_0_r in Hfail. unfold batchTrace. rewrite Nat.add_0_r.
    destruct (batchOutcome fc pw k0) as [tr r]. cbn [fst snd] in *. by subst r.
  - specialize (Hok k0 ltac:(lia)) as Hk0.
    cbn [seq map concat]. unfold batchTrace at 1.
    destruct (batchOutcome fc pw k0) as [tr r]. cbn [fst snd] in *. subst r.
    rewrite (IH (S k0) j); [| lia | intros k Hk; apply Hok; lia |].
    + by rewrite <- Nat.add_succ_comm, app_assoc.
    + by rewrite Nat.add_succ_comm.
Qed.

(** What [generateAndDownloadQRCodes] does once its guards are passed: the
    batches run in turn up to the first that fails; an exception is caught,
    replaced by the fixed message and logged; [isProcessing] ends [false]. *)
Lemma generateAndDownloadQRCodes_spec (w : World) :
  let fc := fileContent (appState w) in
  let pw := password (appState w) in
  let out := batchesOutcome fc pw (seq 0 (ceilDiv (length fc) BATCH_SIZE)) in
  fc <> [] -> (version = UserSecret -> pw <> []) ->
  exists w',
    generateAndDownloadQRCodes w = (w', Ok ()) /\
    trace w' = trace w ++ out.1 ++
      match out.2 with Ok _ => [] | Throw e => [ConsoleError e] end /\
    error (appState w') =
      match out.2 with Ok _ => [] | Throw _ => runFailedMessage end /\
    isProcessing (appState w') = false /\
    sameInputs w w' /\ heapKept w w'.
Proof.
  intros fc pw out Hfc Hpw. unfold generateAndDownloadQRCodes.
  fold fc pw.
  assert (match version with
          | UserSecret => bool_decide (pw = [])
          | FixedSecret => false
          end = false) as ->.
  { destruct version; [done|]. apply bool_decide_eq_false_2. by apply Hpw. }
  assert ((length fc =? 0) = false) as ->.
  { apply Nat.eqb_neq. by destruct fc. }
  unfold tryFinally, tryCatch, runBatches.
  unfold bind at 1. unfold bind at 1. unfold bind at 1.
  cbv beta iota zeta delta [setIsProcessing setError modify].
  match goal with
  | |- context [forRange 0 ?m ?body ?w1] =>
      destruct (forRange_batchStep fc pw m 0 w1)
        as (w2 & Hloop & Htr & [Hfile Hpass] & Hheap & Herr & Hproc); [lia|];
      rewrite Hloop
  end.
  fold out in Hloop, Htr |- *.
  destruct w as [st hp tr]. destruct w2 as [st2 hp2 tr2].
  cbn [appState heap trace] in *.
  destruct out as [trs [[]|e]]; cbn [fst snd] in *; unfold_M;
    (eexists; split; [done|]); cbn [appState heap trace error isProcessing];
    subst tr2.
  - rewrite app_nil_r. split_and!; try done.
  - rewrite <- app_assoc. split_and!; try done.
Qed.

(** When a guard of [generateAndDownloadQRCodes] fires, the handler sets
    the error message and returns. *)
Lemma generateAndDownloadQRCodes_guarded (w : World) :
  fileContent (appState w) = [] \/
  (version = UserSecret /\ password (appState w) = []) ->
  generateAndDownloadQRCodes w
  = setError (if bool_decide (version = UserSecret /\ password (appState w) = [])
              then noPasswordMessage else noFileMessage) w.
Proof.
  intros Hpre. unfold generateAndDownloadQRCodes.
  destruct version.
  - destruct Hpre as [Hfc | [? ?]]; [|done]. rewrite Hfc.
    by rewrite bool_decide_eq_false_2 by (by intros [? _]).
  - destruct (decide (password (appState w) = [])) as [Hpw|Hpw].
    + rewrite (bool_decide_eq_true_2 (password (appState w) = [])) by done.
      by rewrite bool_decide_eq_true_2.
    + destruct Hpre as [Hfc | [_ ?]]; [|done]. rewrite Hfc.
      rewrite (bool_decide_eq_false_2 (password (appState w) = [])) by done.
      by rewrite bool_decide_eq_false_2 by (by intros [_ ?]).
Qed.

(** C8: when the handler is started with no identifier loaded, or, where the
    secret is typed by the user, with an empty password, it only sets the
    error message: the trace gains no call to the hashing, the encoding or
    the packaging library and no download, no array is allocated, and the
    rest of the state is as it was. *)
Theorem generate_rejects_missing_precondition (w : World) :
  fileContent (appState w) = [] \/
  (version = UserSecret /\ password (appState w) = []) ->
  exists w',
    generateAndDownloadQRCodes w = (w', Ok ()) /\
    trace w' = trace w /\ heap w' = heap w /\
    error (appState w') =
      (if bool_decide (version = UserSecret /\ password (appState w) = [])
       then noPasswordMessage else noFileMessage) /\
    error (appState w') <> [] /\
    debugInfo (appState w') = debugInfo (appState w) /\
    fileContent (appState w') = fileContent (appState w) /\
    password (appState w') = password (appState w) /\
    isProcessing (appState w') = isProcessing (appState w) /\
    currentBatch (appState w') = currentBatch (appState w).
Proof.
  intros Hpre. rewrite (generateAndDownloadQRCodes_guarded w Hpre).
  eexists. split; [reflexivity|]. unfold_M.
  cbn [error debugInfo fileContent password isProcessing currentBatch].
  split_and!; try done. by case_bool_decide.
Qed.

(** ** Downloads of a run *)

Lemma downloads_app (tr1 tr2 : list event) :
  downloads (tr1 ++ tr2) = downloads tr1 ++ downloads tr2.
Proof. apply List.filter_app. Qed.

Lemma encodeLines_downloads (pw : jsstring) (lines : list jsstring) :
  downloads (encodeLines pw lines).1.1 = [].
Proof.
  induction lines as [|line lines IH]; [done|].
  cbn [encodeLines]. unfold encodeLine.
  destruct (generateHash _ pw) as [hash|e]; [|done].
  destruct (toDataURL _) as [qr|e]; [|done].
  destruct (encodeLines pw lines) as [[tr rs] err]. cbn [fst] in *.
  by rewrite downloads_app, IH.
Qed.

(** A batch that completes leaves one download, under the name of its
    display range; a batch that fails leaves none. *)
Lemma batchTrace_downloads (fc : list jsstring) (pw : jsstring) (k : nat) :
  match (batchOutcome fc pw k).2 with
  | Ok _ => exists content,
      downloads (batchTrace fc pw k)
      = [Download (batchZipName (length fc) k) content]
  | Throw _ => downloads (batchTrace fc pw k) = []
  end.
Proof.
  unfold batchTrace, batchOutcome, batchZipName.
  pose proof (encodeLines_downloads pw (batchLines fc k)) as Henc.
  destruct (encodeLines pw (batchLines fc k)) as [[tr rs] [e|]];
    cbn [fst snd] in *; [done|].
  unfold packageBatch.
  destruct (generateAsync _) as [content|e]; cbn [fst snd].
  - exists content. rewrite !downloads_app, Henc.
    by destruct (k <? _).
  - by rewrite downloads_app, Henc.
Qed.

Lemma batches_downloads (fc : list jsstring) (pw : jsstring) (j k0 : nat) :
  (forall k, k0 <= k < k0 + j -> (batchOutcome fc pw k).2 = Ok ()) ->
  exists contents,
    length contents = j /\
    downloads (concat (map (batchTrace fc pw) (seq k0 j)))
    = zip_with Download (map (batchZipName (length fc)) (seq k0 j)) contents.
Proof.
  revert k0. induction j as [|j IH]; intros k0 Hok.
  - by exists [].
  - destruct (IH (S k0)) as (contents & Hlen & Hd).
    { intros k Hk. apply Hok. lia. }
    pose proof (batchTrace_downloads fc pw k0) as Hk0.
    rewrite (Hok k0) in Hk0 by lia. destruct Hk0 as [content Hk0].
    exists (content :: contents). split; [by rewrite <- Hlen|].
    cbn [seq map concat zip_with]. by rewrite downloads_app, Hk0, Hd.
Qed.

(** C7: when some batch of a run fails (in the hashing, the encoding or the
    packaging), [j] being the first that does, with exception [e]: the
    handler itself completes; the trace is that of the batches before [j],
    then of batch [j] up to the failing step, then the logging of [e] and
    nothing more, so no later batch starts; the downloads of the batches
    before [j] are all in the trace and batch [j] has none; the error box
    shows the fixed message [Erro ao gerar ou baixar QR codes], whatever [e]
    is, and [isProcessing] is reset. *)
Theorem run_aborts_on_first_failure (w : World) (j : nat) (e : exn) :
  let fc := fileContent (appState w) in
  let pw := password (appState w) in
  let n := length fc in
  fc <> [] -> (version = UserSecret -> pw <> []) ->
  j < ceilDiv n BATCH_SIZE ->
  (forall k, k < j -> (batchOutcome fc pw k).2 = Ok ()) ->
  (batchOutcome fc pw j).2 = Throw e ->
  exists w' contents,
    generateAndDownloadQRCodes w = (w', Ok ()) /\
    trace w' = trace w ++ concat (map (batchTrace fc pw) (seq 0 j))
                 ++ batchTrace fc pw j ++ [ConsoleError e] /\
    length contents = j /\
    downloads (trace w') = downloads (trace w)
      ++ zip_with Download (map (batchZipName n) (seq 0 j)) contents /\
    error (appState w') = lit "Erro ao gerar ou baixar QR codes" /\
    error (appState w') <> [] /\
    errorBox (render (appState w')) = Some (lit "Erro ao gerar ou baixar QR codes") /\
    isProcessing (appState w') = false /\
    sameInputs w w' /\ heapKept w w'.
Proof.
  intros fc pw n Hfc Hpw Hj Hok Hfail.
  destruct (generateAndDownloadQRCodes_spec w Hfc Hpw)
    as (w' & Hrun & Htr & Herr & Hproc & Hin & Hheap).
  fold fc pw in Htr, Herr.
  rewrite (batchesOutcome_first_failure fc pw _ 0 j e) in Htr, Herr;
    [| done | intros k Hk; apply Hok; lia | done
     | done | intros k Hk; apply Hok; lia | done].
  cbn [fst snd] in Htr, Herr. rewrite Nat.add_0_l in Htr.
  destruct (batches_downloads fc pw j 0) as (contents & Hlen & Hd).
  { intros k Hk. apply Hok. lia. }
  assert (error (appState w') <> []) as Hshown.
  { rewrite Herr. intros H%(f_equal length). by vm_compute in H. }
  exists w', contents. split_and!; try done.
  - by rewrite Htr, <- !app_assoc.
  - rewrite Htr, !downloads_app, Hd.
    pose proof (batchTrace_downloads fc pw j) as Hdj. rewrite Hfail in Hdj.
    rewrite Hdj. cbn. by rewrite !app_nil_r.
  - unfold render. cbn [errorBox]. rewrite bool_decide_eq_false_2 by done.
    by rewrite Herr.
Qed.

(** ** The partition into batches *)

Lemma batchLines_concat (fc : list jsstring) (j : nat) :
  j <= ceilDiv (length fc) BATCH_SIZE ->
  concat (map (batchLines fc) (seq 0 j))
  = take (Nat.min (j * BATCH_SIZE) (length fc)) fc.
Proof.
  induction j as [|j IH]; intros Hj; [done|].
  rewrite seq_S, map_app, concat_app, IH by lia. cbn [map concat].
  rewrite app_nil_r. unfold batchLines, slice, batchBounds. cbn [fst snd].
  assert (j * BATCH_SIZE < length fc) as Hlt.
  { apply ceilDiv_lt; [apply BATCH_SIZE_pos | lia]. }
  rewrite Nat.min_l by lia. rewrite take_take_drop. f_equal. lia.
Qed.

(** The batches of a list, in order, make up the list. *)
Lemma batchLines_partition (fc : list jsstring) :
  concat (map (batchLines fc) (seq 0 (ceilDiv (length fc) BATCH_SIZE))) = fc.
Proof.
  rewrite batchLines_concat by done.
  apply firstn_all2. apply Nat.min_case_strong; [|done]. intros H.
  pose proof BATCH_SIZE_pos.
  destruct (Nat.le_gt_cases (length fc)
              (ceilDiv (length fc) BATCH_SIZE * BATCH_SIZE)) as [|Hlt]; [done|].
  apply ceilDiv_lt in Hlt; lia.
Qed.

(** Every index belongs to the bounds of one batch and no other. *)
Lemma batchBounds_unique (n i : nat) :
  i < n ->
  exists k,
    k < ceilDiv n BATCH_SIZE /\
    (batchBounds n k).1 <= i < (batchBounds n k).2 /\
    forall k', (batchBounds n k').1 <= i < (batchBounds n k').2 -> k' = k.
Proof.
  intros Hi. pose proof BATCH_SIZE_pos as HB. exists (i / BATCH_SIZE).
  pose proof (Nat.div_mod_eq i BATCH_SIZE) as Hdm.
  pose proof (Nat.mod_upper_bound i BATCH_SIZE ltac:(lia)) as Hmod.
  unfold batchBounds. cbn [fst snd]. split_and!.
  - apply ceilDiv_lt; [done | nia].
  - nia.
  - apply Nat.min_glb_lt; [nia | done].
  - intros k' [Hlo Hhi]. apply Nat.min_glb_lt_iff in Hhi as [Hhi _]. nia.
Qed.

Lemma displayRange_chain (n : nat) :
  let m := ceilDiv n BATCH_SIZE in
  0 < n ->
  (displayRange n 0).1 = 1 /\
  (displayRange n (m - 1)).2 = n /\
  (forall k, S k < m -> (displayRange n (S k)).1 = (displayRange n k).2 + 1) /\
  (forall k, k < m -> (displayRange n k).1 <= (displayRange n k).2).
Proof.
  intros m Hn. pose proof BATCH_SIZE_pos as HB.
  unfold displayRange, batchBounds. cbn [fst snd]. split_and!.
  - lia.
  - assert (m - 1 < m) as Hlt.
    { enough (0 < m) by lia. apply ceilDiv_lt; [done | lia]. }
    apply ceilDiv_lt in Hlt; [|done].
    destruct (Nat.le_gt_cases n ((m - 1) * BATCH_SIZE + BATCH_SIZE)) as [|Hgt];
      [lia|].
    assert (m < m); [|lia]. apply ceilDiv_lt; [done | nia].
  - intros k Hk. apply ceilDiv_lt in Hk; [|done]. lia.
  - intros k Hk. apply ceilDiv_lt in Hk; [|done]. lia.
Qed.

(** ** Runs whose library calls succeed *)

Lemma encodeLine_success (pw line : jsstring) (tr : list event) (r : QRCodeData) :
  encodeLine pw line = (tr, Ok r) ->
  tr = recordEvents pw [r] /\ encodes pw line r.
Proof.
  intros Hline. split; [|by apply (encodeLine_record pw line tr)].
  revert Hline. unfold encodeLine.
  destruct (generateHash _ pw) as [hash|e]; [|done].
  destruct (toDataURL _) as [qr|e]; [|done].
  by intros [= <- <-].
Qed.

(** A loop that ends normally has made one record per line, each the record
    of its line, and has left the calls of those records in the trace. *)
Lemma encodeLines_success (pw : jsstring) (lines : list jsstring)
    (tr : list event) (rs : list QRCodeData) :
  encodeLines pw lines = (tr, rs, None) ->
  tr = recordEvents pw rs /\ Forall2 (encodes pw) lines rs.
Proof.
  revert tr rs. induction lines as [|line lines IH]; intros tr rs.
  - intros [= <- <-]. split; [done | constructor].
  - cbn [encodeLines].
    destruct (encodeLine pw line) as [tr1 [r|e]] eqn:Hline; [|done].
    destruct (encodeLines pw lines) as [[tr2 rs2] err] eqn:Hrest.
    intros [= <- <- ->]. destruct (IH tr2 rs2 eq_refl) as [-> Hall].
    destruct (encodeLine_success _ _ _ _ Hline) as [-> Hr].
    split; [done | by constructor].
Qed.

Lemma encodeLines_succeeds (pw : jsstring) (lines : list jsstring) :
  Forall (fun line => exists tr r, encodeLine pw line = (tr, Ok r)) lines ->
  exists rs,
    encodeLines pw lines = (recordEvents pw rs, rs, None) /\
    Forall2 (encodes pw) lines rs.
Proof.
  induction 1 as [|line lines (tr & r & Hline) _ (rs & Heq & Hall)].
  - exists []. split; [done | constructor].
  - exists (r :: rs). cbn [encodeLines]. rewrite Hline, Heq.
    destruct (encodeLine_success _ _ _ _ Hline) as [-> Hr].
    split; [done | by constructor].
Qed.

(** A batch that completes: its lines were all encoded, the archive of the
    records was serialised, and the trace is the calls of the records, the
    packaging, the download under the name of the display range and, unless
    the batch is the last, the timer. *)
Lemma batchOutcome_success (fc : list jsstring) (pw : jsstring) (k : nat) :
  (batchOutcome fc pw k).2 = Ok () ->
  exists records content,
    Forall2 (encodes pw) (batchLines fc k) records /\
    generateAsync (archiveOf (displayRange (length fc) k).1
                     (displayRange (length fc) k).2 records) = Ok content /\
    batchTrace fc pw k
    = recordEvents pw records
      ++ [CallGenerateAsync (archiveOf (displayRange (length fc) k).1
                               (displayRange (length fc) k).2 records);
          Download (batchZipName (length fc) k) content]
      ++ (if k <? ceilDiv (length fc) BATCH_SIZE - 1
          then [SetTimeout BATCH_DELAY] else []).
Proof.
  unfold batchTrace, batchOutcome, batchZipName.
  destruct (encodeLines pw (batchLines fc k)) as [[tr rs] [e|]] eqn:Henc; [done|].
  destruct (encodeLines_success _ _ _ _ Henc) as [-> Hall].
  unfold packageBatch.
  destruct (generateAsync _) as [content|e] eqn:Hgen; [|done].
  intros _. exists rs, content. cbn [fst]. by split_and!.
Qed.

(** A run all of whose batches complete. *)
Lemma generateAndDownloadQRCodes_complete (w : World) :
  let fc := fileContent (appState w) in
  let pw := password (appState w) in
  let m := ceilDiv (length fc) BATCH_SIZE in
  fc <> [] -> (version = UserSecret -> pw <> []) ->
  (forall k, k < m -> (batchOutcome fc pw k).2 = Ok ()) ->
  exists w',
    generateAndDownloadQRCodes w = (w', Ok ()) /\
    trace w' = trace w ++ concat (map (batchTrace fc pw) (seq 0 m)) /\
    error (appState w') = [] /\
    isProcessing (appState w') = false /\
    sameInputs w w' /\ heapKept w w'.
Proof.
  intros fc pw m Hfc Hpw Hok.
  destruct (generateAndDownloadQRCodes_spec w Hfc Hpw)
    as (w' & Hrun & Htr & Herr & Hproc & Hin & Hheap).
  fold fc pw m in Htr, Herr.
  rewrite batchesOutcome_Ok in Htr, Herr by (intros k Hk; apply Hok; lia).
  cbn [fst snd] in Htr, Herr. rewrite app_nil_r in Htr.
  exists w'. by split_and!.
Qed.

(** C1: a run over [n > 0] loaded lines, every batch of which completes (no
    call to the hashing, the encoding or the packaging library fails), is
    made of exactly [ceil(n / 2000)] batches, in order, and of nothing else:
    batch [k] encodes the lines of indices [k * 2000] to
    [min ((k + 1) * 2000) n - 1] in the order of the file, one record per
    line, packages these records and downloads them under its display
    range, and is followed by the timer unless it is the last.  The batches
    concatenated are the loaded list, every index lies in the bounds of
    exactly one batch, and the display ranges start at 1, end at [n] and
    follow one another without gap or overlap. *)
Theorem run_partitions_into_batches (w : World) :
  let fc := fileContent (appState w) in
  let pw := password (appState w) in
  let n := length fc in
  let m := ceilDiv n BATCH_SIZE in
  0 < n -> (version = UserSecret -> pw <> []) ->
  (forall k, k < m -> (batchOutcome fc pw k).2 = Ok ()) ->
  exists w',
    generateAndDownloadQRCodes w = (w', Ok ()) /\
    trace w' = trace w ++ concat (map (batchTrace fc pw) (seq 0 m)) /\
    (forall k, k < m ->
       exists records content,
         Forall2 (encodes pw) (batchLines fc k) records /\
         batchTrace fc pw k
         = recordEvents pw records
           ++ [CallGenerateAsync (archiveOf (displayRange n k).1
                                    (displayRange n k).2 records);
               Download (lit "QR Codes " ++ showNat (displayRange n k).1
                         ++ lit " - " ++ showNat (displayRange n k).2
                         ++ lit ".zip") content]
           ++ (if S k =? m then [] else [SetTimeout 10000%N])) /\
    m = (n + 1999) / 2000 /\
    (forall k, batchLines fc k = slice (k * 2000) (Nat.min ((k + 1) * 2000) n) fc) /\
    concat (map (batchLines fc) (seq 0 m)) = fc /\
    (forall i, i < n -> exists k, k < m /\
       k * 2000 <= i < Nat.min ((k + 1) * 2000) n /\
       forall k', k' * 2000 <= i < Nat.min ((k' + 1) * 2000) n -> k' = k) /\
    (forall k, displayRange n k = (k * 2000 + 1, Nat.min ((k + 1) * 2000) n)) /\
    (displayRange n 0).1 = 1 /\
    (displayRange n (m - 1)).2 = n /\
    (forall k, S k < m -> (displayRange n (S k)).1 = (displayRange n k).2 + 1) /\
    (forall k, k < m -> (displayRange n k).1 <= (displayRange n k).2) /\
    error (appState w') = [] /\ sameInputs w w'.
Proof.
  intros fc pw n m Hn Hpw Hok.
  assert (fc <> []) as Hfc by (intros E; subst n; rewrite E in Hn; simpl in Hn; lia).
  destruct (generateAndDownloadQRCodes_complete w Hfc Hpw Hok)
    as (w' & Hrun & Htr & Herr & Hproc & Hin & Hheap).
  fold fc pw n m in Htr.
  assert (forall k, (k * 2000, Nat.min ((k + 1) * 2000) n) = batchBounds n k)
    as Hbounds.
  { intros k. unfold batchBounds, BATCH_SIZE. f_equal. f_equal. lia. }
  destruct (displayRange_chain n Hn) as (H1 & H2 & H3 & H4).
  exists w'. split_and!; try done.
  - intros k Hk.
    destruct (batchOutcome_success fc pw k (Hok k Hk))
      as (records & content & Hall & _ & Hbatch).
    exists records, content. split; [done|]. rewrite Hbatch. fold n m.
    unfold batchZipName, folderNameOf. rewrite <- !app_assoc.
    do 3 f_equal.
    destruct (Nat.ltb_spec k (m - 1)), (Nat.eqb_spec (S k) m); (done || lia).
  - intros k. unfold batchLines. fold n. by rewrite <- Hbounds.
  - apply batchLines_partition.
  - intros i Hi. destruct (batchBounds_unique n i Hi) as (k & Hk & Hik & Huniq).
    exists k. rewrite <- Hbounds in Hik. split_and!; [done | apply Hik.. |].
    intros k' Hk'. apply Huniq. by rewrite <- Hbounds.
  - intros k. unfold displayRange. by rewrite <- Hbounds.
Qed.

(** ** The archive of a batch *)

Lemma zipSet_fst (p : jsstring) (e : zipEntry) (a : archive) :
  (zipSet p e a).*1 = if bool_decide (p ∈ a.*1) then a.*1 else a.*1 ++ [p].
Proof.
  induction a as [|[p0 e0] a IH]; cbn [zipSet fmap list_fmap fst].
  - by rewrite bool_decide_eq_false_2 by apply not_elem_of_nil.
  - destruct (decide (p0 = p)) as [->|Hne]; cbn [fmap list_fmap fst].
    + by rewrite bool_decide_eq_true_2 by apply list_elem_of_here.
    + change (list_fmap _ _ fst (zipSet p e a)) with ((zipSet p e a).*1).
      rewrite IH. destruct (decide (p ∈ a.*1)) as [Hin|Hnin].
      * rewrite !bool_decide_eq_true_2; [done | by apply list_elem_of_further | done].
      * rewrite !bool_decide_eq_false_2; [done | | done].
        rewrite elem_of_cons. intros [->|]; done.
Qed.

Lemma zipSet_NoDup (p : jsstring) (e : zipEntry) (a : archive) :
  NoDup a.*1 -> NoDup (zipSet p e a).*1.
Proof.
  intros Hnd. rewrite zipSet_fst. case_bool_decide as Hin; [done|].
  apply NoDup_app. split_and!; [done | | apply NoDup_singleton].
  intros x Hx ->%list_elem_of_singleton. done.
Qed.

Lemma zipSet_elem (p : jsstring) (e : zipEntry) (a : archive)
    (entry : jsstring * zipEntry) :
  NoDup a.*1 ->
  entry ∈ zipSet p e a <-> entry = (p, e) \/ (entry.1 <> p /\ entry ∈ a).
Proof.
  induction a as [|[p0 e0] a IH]; cbn [zipSet fmap list_fmap fst]; intros Hnd.
  - rewrite list_elem_of_singleton. split; [by left|].
    intros [-> | [_ H%not_elem_of_nil]]; done.
  - apply NoDup_cons in Hnd as [Hp0 Hnd].
    destruct (decide (p0 = p)) as [->|Hne].
    + rewrite !elem_of_cons. split.
      * intros [-> | Hin]; [by left|]. right. split; [|by right].
        intros <-. apply Hp0. by apply (list_elem_of_fmap_2 fst) in Hin.
      * intros [-> | [Hne [-> | Hin]]]; [by left | done | by right].
    + rewrite !elem_of_cons, IH by done. split.
      * intros [-> | [-> | [Hne' Hin]]]; [right | by left | right]; cbn; eauto.
      * intros [-> | [Hne' [-> | Hin]]]; eauto.
Qed.

Lemma app_nonempty_neq (folder name : jsstring) :
  name <> [] -> folder ++ name <> folder.
Proof.
  intros Hne Heq. apply (f_equal length) in Heq.
  rewrite length_app in Heq. destruct name; [done | simpl in Heq; lia].
Qed.

Lemma imageName_nonempty (num : jsstring) : imageName num <> [].
Proof.
  unfold imageName. destruct version; [|done].
  intros [_ H]%app_eq_nil. done.
Qed.

Lemma imageName_inj (num1 num2 : jsstring) :
  imageName num1 = imageName num2 -> num1 = num2.
Proof.
  unfold imageName. destruct version.
  - by intros ?%app_inv_tail.
  - by intros ?%app_inv_head%app_inv_tail.
Qed.

Lemma imagePath_inj (folder : jsstring) (r1 r2 : QRCodeData) :
  imagePath folder r1 = imagePath folder r2 -> number r1 = number r2.
Proof. by intros ?%app_inv_head%imageName_inj. Qed.

Lemma addImage_eq (folder : jsstring) (zip : archive) (r : QRCodeData) :
  addImage folder zip r = zipSet (imagePath folder r) (imageEntry folder r).2 zip.
Proof. done. Qed.

(** The folder's own entry stays at the head of the table. *)
Lemma fold_addImage_folder (folder : jsstring) (rs : list QRCodeData)
    (a : archive) :
  fold_left (addImage folder) rs ((folder, ZipFolder) :: a)
  = (folder, ZipFolder) :: fold_left (addImage folder) rs a.
Proof.
  revert a. induction rs as [|r rs IH]; intros a; [done|].
  cbn [fold_left]. rewrite <- IH. f_equal.
  rewrite !addImage_eq. cbn [zipSet]. rewrite decide_False; [done|].
  intros Heq. symmetry in Heq. revert Heq.
  apply app_nonempty_neq, imageName_nonempty.
Qed.

Lemma archiveOf_eq (start end_ : nat) (rs : list QRCodeData) :
  archiveOf start end_ rs
  = (folderNameOf start end_ ++ [47%N], ZipFolder)
    :: fold_left (addImage (folderNameOf start end_ ++ [47%N]))
         (arraySort compareByNumber rs) [].
Proof. unfold archiveOf. apply fold_addImage_folder. Qed.

(** The images of some records, inserted in order into an empty table: the
    paths are distinct, every entry is the image of a record, the image of a
    record is there when no later record has its identifier, and the table
    holds one entry per identifier. *)
Lemma fold_addImage_spec (folder : jsstring) (rs : list QRCodeData) :
  let F := fold_left (addImage folder) rs [] in
  NoDup F.*1 /\
  (forall entry, entry ∈ F -> exists r, r ∈ rs /\ entry = imageEntry folder r) /\
  (forall s1 r s2, rs = s1 ++ r :: s2 -> number r ∉ map number s2 ->
     imageEntry folder r ∈ F) /\
  (forall p, p ∈ F.*1 <-> exists r, r ∈ rs /\ p = imagePath folder r).
Proof.
  induction rs as [|x rs IH] using rev_ind; cbn zeta.
  - cbn [fold_left fmap list_fmap]. split_and!.
    + apply NoDup_nil_2.
    + by intros entry H%not_elem_of_nil.
    + intros s1 r s2 Heq. by destruct s1.
    + intros p. split; [by intros H%not_elem_of_nil|].
      by intros (r & H%not_elem_of_nil & _).
  - cbn zeta in IH. destruct IH as (Hnd & Hsub & Hlast & Hkeys).
    rewrite fold_left_app. cbn [fold_left]. rewrite addImage_eq.
    set (F := fold_left (addImage folder) rs []) in *. split_and!.
    + by apply zipSet_NoDup.
    + intros entry [-> | [_ Hin]]%zipSet_elem; [| |done].
      * exists x. split; [in_app_r | done].
      * destruct (Hsub entry Hin) as (r & Hr & ->). exists r.
        split; [in_app_l | done].
    + intros s1 r s2 Heq Hnotin. apply zipSet_elem; [done|].
      destruct s2 as [|y s2 _] using rev_ind.
      * apply app_inj_tail in Heq as [_ ->]. by left.
      * rewrite app_comm_cons, app_assoc in Heq.
        apply app_inj_tail in Heq as [-> ->]. right. split.
        -- cbn [imageEntry fst]. intros Heq%imagePath_inj.
           apply Hnotin. rewrite map_app, Heq. in_app_r.
        -- apply (Hlast s1 r s2); [done|].
           intros Hin. apply Hnotin. rewrite map_app. in_app_l.
    + intros p. rewrite zipSet_fst. case_bool_decide as Hin.
      * rewrite Hkeys. split.
        -- intros (r & Hr & ->). exists r. split; [in_app_l | done].
        -- intros (r & [Hr | ->%list_elem_of_singleton]%elem_of_app & ->); [eauto|].
           by apply Hkeys.
      * rewrite elem_of_app, list_elem_of_singleton, Hkeys. split.
        -- intros [(r & Hr & ->) | ->]; [exists r | exists x];
             (split; [|done]); [in_app_l | in_app_r].
        -- intros (r & [Hr | ->%list_elem_of_singleton]%elem_of_app & ->); eauto.
Qed.

(** ** The sort permutes *)

Lemma sortInsert_Permutation {A} (cmp : A -> A -> jsnumber) (x : A) (l : list A) :
  sortInsert cmp x l ≡ₚ x :: l.
Proof.
  induction l as [|y l IH]; cbn [sortInsert]; [done|].
  destruct (isPositive (cmp x y)); [|done].
  rewrite IH. apply Permutation_swap.
Qed.

Lemma arraySort_Permutation {A} (cmp : A -> A -> jsnumber) (l : list A) :
  arraySort cmp l ≡ₚ l.
Proof.
  induction l as [|x l IH]; cbn [arraySort]; [done|].
  by rewrite sortInsert_Permutation, IH.
Qed.

(** ** What the archive of a batch holds *)

Lemma NoDup_fst_functional {K V} (a : list (K * V)) (k : K) (e1 e2 : V) :
  NoDup a.*1 -> (k, e1) ∈ a -> (k, e2) ∈ a -> e1 = e2.
Proof.
  induction a as [|[k0 e0] a IH]; cbn [fmap list_fmap fst].
  - by intros _ H%not_elem_of_nil.
  - intros [Hk0 Hnd]%NoDup_cons [[= -> ->] | H1]%elem_of_cons
      [[= <-] | H2]%elem_of_cons; try done.
    + exfalso. apply Hk0. by apply (list_elem_of_fmap_2 fst) in H2.
    + simplify_eq. exfalso. apply Hk0. by apply (list_elem_of_fmap_2 fst) in H1.
    + by apply IH.
Qed.

(** The last record of a list that has the identifier of a given one. *)
Lemma last_with_number (rs : list QRCodeData) (r : QRCodeData) :
  r ∈ rs ->
  exists s1 r' s2,
    rs = s1 ++ r' :: s2 /\ number r' = number r /\
    number r ∉ map number s2.
Proof.
  revert r. induction rs as [|z rs IH]; intros r Hr.
  { by apply not_elem_of_nil in Hr. }
  destruct (decide (number r ∈ map number rs)) as [Hlater|Hnot].
  - apply list_elem_of_fmap in Hlater as (r1 & Heq1 & Hr1).
    destruct (IH r1 Hr1) as (s1 & r' & s2 & -> & Hnum & Hlast).
    exists (z :: s1), r', s2. rewrite Heq1. by split_and!.
  - apply elem_of_cons in Hr as [-> | Hr].
    + exists [], z, rs. by split_and!.
    + exfalso. apply Hnot. by apply (list_elem_of_fmap_2 number).
Qed.

Lemma zipFiles_images (folder : jsstring) (rs : list QRCodeData) :
  zipFiles (fold_left (addImage folder) rs []) = fold_left (addImage folder) rs [].
Proof.
  destruct (fold_addImage_spec folder rs) as (_ & Hsub & _).
  cbn zeta in Hsub. unfold zipFiles.
  induction (fold_left (addImage folder) rs []) as [|entry F IH]; [done|].
  cbn [List.filter].
  destruct (Hsub entry) as (r & _ & ->); [apply list_elem_of_here|].
  cbn. f_equal. apply IH. intros e He. apply Hsub. by apply list_elem_of_further.
Qed.

Lemma zipFolders_images (folder : jsstring) (rs : list QRCodeData) :
  zipFolders (fold_left (addImage folder) rs []) = [].
Proof.
  destruct (fold_addImage_spec folder rs) as (_ & Hsub & _).
  cbn zeta in Hsub. unfold zipFolders.
  induction (fold_left (addImage folder) rs []) as [|entry F IH]; [done|].
  cbn [List.filter].
  destruct (Hsub entry) as (r & _ & ->); [apply list_elem_of_here|].
  cbn. apply IH. intros e He. apply Hsub. by apply list_elem_of_further.
Qed.

(** What [downloadBatch] leaves in the trace: the archive of the sorted
    records is handed to [generateAsync], and downloaded if that succeeds. *)
Lemma downloadBatch_trace (l bn start end_ : nat) (qrCodes : list QRCodeData)
    (w : World) :
  heap w !! l = Some qrCodes ->
  let zip := archiveOf start end_ qrCodes in
  (downloadBatch l bn start end_ w).2
    = match generateAsync zip with Ok _ => Ok () | Throw e => Throw e end /\
  trace (downloadBatch l bn start end_ w).1
    = trace w ++ CallGenerateAsync zip ::
        match generateAsync zip with
        | Ok content => [Download (folderNameOf start end_ ++ lit ".zip") content]
        | Throw _ => []
        end.
Proof.
  intros Hl zip. rewrite (downloadBatch_spec _ _ _ _ _ _ Hl).
  unfold packageBatch. fold zip. by destruct (generateAsync zip).
Qed.

(** C6 (amended): for a batch of records with display range [start..end_],
    the records being those of one batch (identifiers made of digits, and
    one image per identifier), the archive handed to [generateAsync] holds
    exactly one folder, named [QR Codes {start} - {end_}] (its entry ends
    with the [/] JSZip gives to a directory), and under it, for each
    record, exactly one entry at the path of its image, whose content
    is the record's data URL without its [data:image/png;base64,] prefix,
    marked as base64; it holds no other file.  The image is named
    [{identifier}.png] in [App.tsx] and [qrcode_{identifier}.png] in
    [part_000]. *)
Theorem downloadBatch_archive (l bn start end_ : nat)
    (qrCodes : list QRCodeData) (w : World) :
  heap w !! l = Some qrCodes ->
  Forall (fun r => allDigits (number r) = true) qrCodes ->
  (forall r1 r2, r1 ∈ qrCodes -> r2 ∈ qrCodes ->
     number r1 = number r2 -> qrDataUrl r1 = qrDataUrl r2) ->
  let folder := lit "QR Codes " ++ showNat start ++ lit " - " ++ showNat end_
                ++ [47%N] in
  let fileName r :=
    match version with
    | FixedSecret => number r ++ lit ".png"
    | UserSecret => lit "qrcode_" ++ number r ++ lit ".png"
    end in
  let content r :=
    ZipFile (replacePrefix (lit "data:image/png;base64,") (qrDataUrl r)) true in
  exists zip,
    trace (downloadBatch l bn start end_ w).1
      = trace w ++ CallGenerateAsync zip ::
          match generateAsync zip with
          | Ok blob => [Download (folderNameOf start end_ ++ lit ".zip") blob]
          | Throw _ => []
          end /\
    zipFolders zip = [(folder, ZipFolder)] /\
    (forall r, r ∈ qrCodes ->
       (folder ++ fileName r, content r) ∈ zip /\
       forall e, (folder ++ fileName r, e) ∈ zip -> e = content r) /\
    (forall entry, entry ∈ zipFiles zip ->
       exists r, r ∈ qrCodes /\ entry = (folder ++ fileName r, content r)) /\
    length (zipFiles zip) <= length qrCodes.
Proof.
  intros Hl _ Hsame folder fileName content.
  destruct (downloadBatch_trace l bn start end_ qrCodes w Hl) as [_ Htr].
  cbn zeta in Htr. eexists. split; [exact Htr|].
  rewrite archiveOf_eq.
  assert (folderNameOf start end_ ++ [47%N] = folder) as ->.
  { unfold folderNameOf, folder. by rewrite <- !app_assoc. }
  set (sorted := arraySort compareByNumber qrCodes).
  assert (forall r, r ∈ sorted <-> r ∈ qrCodes) as Hperm.
  { intros r. unfold sorted. by rewrite arraySort_Permutation. }
  destruct (fold_addImage_spec folder sorted) as (Hnd & Hsub & Hlast & Hkeys).
  cbn zeta in Hnd, Hsub, Hlast, Hkeys.
  set (F := fold_left (addImage folder) sorted []) in *.
  assert (forall r, imageEntry folder r = (folder ++ fileName r, content r))
    as Hentry by done.
  assert (NoDup ((folder, ZipFolder) :: F).*1) as Hnd'.
  { cbn [fmap list_fmap fst]. apply NoDup_cons. split; [|done].
    intros (r & _ & Heq)%Hkeys. symmetry in Heq. revert Heq.
    apply app_nonempty_neq, imageName_nonempty. }
  split_and!.
  - unfold zipFolders. cbn [List.filter isZipFile snd negb].
    f_equal. apply zipFolders_images.
  - intros r Hr. assert ((folder ++ fileName r, content r) ∈ F) as Hin.
    { destruct (last_with_number sorted r) as (s1 & r' & s2 & Heq & Hnum & Hnot).
      { by apply Hperm. }
      rewrite <- Hnum in Hnot. specialize (Hlast s1 r' s2 Heq Hnot).
      rewrite Hentry in Hlast. unfold fileName, content in *.
      rewrite <- Hnum, <- (Hsame r' r); [done | | done | done].
      apply Hperm. rewrite Heq. apply elem_of_app. right. apply list_elem_of_here. }
    split; [by apply list_elem_of_further|].
    intros e He. eapply NoDup_fst_functional; [exact Hnd' | exact He |].
    by apply list_elem_of_further.
  - unfold zipFiles. cbn [List.filter isZipFile snd]. fold (zipFiles F).
    unfold F. rewrite zipFiles_images. intros entry (r & Hr & ->)%Hsub.
    exists r. by rewrite <- Hperm.
  - unfold zipFiles. cbn [List.filter isZipFile snd]. fold (zipFiles F).
    unfold F. rewrite zipFiles_images. fold F.
    rewrite <- (length_fmap fst F).
    rewrite <- (Permutation_length (arraySort_Permutation compareByNumber qrCodes)).
    fold sorted. rewrite <- (length_fmap (imagePath folder) sorted).
    apply submseteq_length, NoDup_submseteq; [done|].
    intros p (r & Hr & ->)%Hkeys. by apply list_elem_of_fmap_2.
Qed.

Lemma remove_dups_length_le {A} `{EqDecision A} (l : list A) :
  length (remove_dups l) <= length l.
Proof.
  induction l as [|x l IH]; [done|]. cbn [remove_dups].
  case_decide; simpl; lia.
Qed.

Lemma remove_dups_length_lt {A} `{EqDecision A} (l : list A) :
  ~ NoDup l -> length (remove_dups l) < length l.
Proof.
  induction l as [|x l IH]; intros Hdup.
  - exfalso. apply Hdup. constructor.
  - cbn [remove_dups]. pose proof (remove_dups_length_le l).
    case_decide as Hx; simpl; [lia|].
    assert (~ NoDup l) as Hl by (intros Hnd; apply Hdup; by constructor).
    specialize (IH Hl). lia.
Qed.

(** C9: when an identifier occurs more than once among the records of a
    batch (identifiers made of digits, as the parser leaves them), the
    packager raises nothing of its own, and the archive it hands to
    [generateAsync] holds one image per distinct identifier, which is fewer
    images than there are records: for each identifier the entry kept is
    the one of the last record, in sorted order, that carries it. *)
Theorem downloadBatch_collapses_duplicates (l bn start end_ : nat)
    (qrCodes : list QRCodeData) (w : World) :
  heap w !! l = Some qrCodes ->
  Forall (fun r => allDigits (number r) = true) qrCodes ->
  ~ NoDup (map number qrCodes) ->
  let folder := folderNameOf start end_ ++ [47%N] in
  exists zip,
    trace (downloadBatch l bn start end_ w).1
      = trace w ++ CallGenerateAsync zip ::
          match generateAsync zip with
          | Ok blob => [Download (folderNameOf start end_ ++ lit ".zip") blob]
          | Throw _ => []
          end /\
    (downloadBatch l bn start end_ w).2
      = match generateAsync zip with Ok _ => Ok () | Throw e => Throw e end /\
    appState (downloadBatch l bn start end_ w).1 = appState w /\
    length (zipFiles zip) = length (remove_dups (map number qrCodes)) /\
    length (zipFiles zip) < length qrCodes /\
    (forall s1 r s2,
       arraySort compareByNumber qrCodes = s1 ++ r :: s2 ->
       number r ∉ map number s2 ->
       imageEntry folder r ∈ zip /\
       forall e, (imagePath folder r, e) ∈ zip -> e = (imageEntry folder r).2).
Proof.
  intros Hl _ Hdup folder.
  destruct (downloadBatch_trace l bn start end_ qrCodes w Hl) as [Hres Htr].
  cbn zeta in Hres, Htr. eexists. split; [exact Htr|]. split; [exact Hres|].
  split; [by rewrite (downloadBatch_spec _ _ _ _ _ _ Hl)|].
  rewrite archiveOf_eq. fold folder.
  set (sorted := arraySort compareByNumber qrCodes).
  assert (forall r, r ∈ sorted <-> r ∈ qrCodes) as Hperm.
  { intros r. unfold sorted. by rewrite arraySort_Permutation. }
  destruct (fold_addImage_spec folder sorted) as (Hnd & Hsub & Hlast & Hkeys).
  cbn zeta in Hnd, Hsub, Hlast, Hkeys.
  assert (length (zipFiles ((folder, ZipFolder)
                              :: fold_left (addImage folder) sorted []))
          = length (remove_dups (map number qrCodes))) as Hcount.
  { unfold zipFiles. cbn [List.filter isZipFile snd].
    fold (zipFiles (fold_left (addImage folder) sorted [])).
    rewrite zipFiles_images.
    rewrite <- (length_fmap fst).
    rewrite <- (length_fmap (fun num => folder ++ imageName num)
                  (remove_dups (map number qrCodes))).
    apply Permutation_length, NoDup_Permutation; [done | |].
    - apply NoDup_fmap_2_strong; [|apply NoDup_remove_dups].
      by intros num1 num2 _ _ ?%app_inv_head%imageName_inj.
    - intros p. rewrite Hkeys, list_elem_of_fmap. split.
      + intros (r & Hr%Hperm & ->). exists (number r). split; [done|].
        apply elem_of_remove_dups. by apply (list_elem_of_fmap_2 number).
      + intros (num & -> & Hnum).
        apply (proj1 (elem_of_remove_dups _ _)) in Hnum.
        apply list_elem_of_fmap in Hnum as (r & -> & Hr).
        exists r. by rewrite Hperm. }
  split_and!.
  - exact Hcount.
  - rewrite Hcount.
    rewrite <- (length_fmap number qrCodes). by apply remove_dups_length_lt.
  - intros s1 r s2 Heq Hnot. specialize (Hlast s1 r s2 Heq Hnot).
    split; [by apply list_elem_of_further|].
    intros e He.
    eapply (NoDup_fst_functional ((folder, ZipFolder)
              :: fold_left (addImage folder) sorted [])); [| exact He |].
    + cbn [fmap list_fmap fst]. apply NoDup_cons. split; [|done].
      intros (r0 & _ & Heq0)%Hkeys. symmetry in Heq0. revert Heq0.
      apply app_nonempty_neq, imageName_nonempty.
    + by apply list_elem_of_further.
Qed.

(** ** The digest *)

(** C3 (amended): the digest is a function of the concatenation of the
    identifier and the secret, and of nothing else: the same pair always
    gives the same digest, and so do two pairs with the same
    concatenation. *)
Theorem generateHash_concat (id1 s1 id2 s2 : jsstring) :
  id1 ++ secret s1 = id2 ++ secret s2 ->
  generateHash id1 s1 = generateHash id2 s2.
Proof. unfold generateHash. by intros ->. Qed.

(** ** The comparator and the order of the sort *)

Lemma isDigit_not_space (c : N) : isDigit c = true -> isWhiteSpace c = false.
Proof.
  unfold isDigit, isWhiteSpace. intros [H1 H2]%andb_true_iff.
  apply N.leb_le in H1, H2.
  repeat match goal with
         | |- context [(?a <=? ?b)%N] => destruct (N.leb_spec a b); try lia
         | |- context [(?a =? ?b)%N] => destruct (N.eqb_spec a b); try lia
         end;
    reflexivity.
Qed.

Lemma isDigit_digitValue (c : N) :
  isDigit c = true -> digitValue 10 c = Some (Z.of_N c - 48)%Z.
Proof.
  unfold isDigit, digitValue. intros [H1 H2]%andb_true_iff.
  apply N.leb_le in H1, H2.
  destruct (Z.leb_spec 48 (Z.of_N c)); [|lia].
  destruct (Z.leb_spec (Z.of_N c) 57); [|lia]. reflexivity.
Qed.

(** On a string of digits [parseInt] reads the whole string in radix 10. *)
Lemma parseInt_digits (s : jsstring) :
  allDigits s = true -> parseInt s = toNumber (decimalValue s).
Proof.
  destruct s as [|c s]; [done|]. unfold allDigits. cbn [forallb].
  intros [Hc Hs]%andb_true_iff.
  unfold parseInt, decimalValue. cbn [trimStart].
  rewrite (isDigit_not_space c Hc).
  pose proof Hc as [H1 H2]%andb_true_iff. apply N.leb_le in H1, H2.
  destruct (N.eqb_spec c 45); [lia|]. destruct (N.eqb_spec c 43); [lia|].
  assert (match s with
          | x :: s' =>
              if (c =? 48)%N && ((x =? 120)%N || (x =? 88)%N)
              then (16%Z, s') else (10%Z, c :: s)
          | [] => (10%Z, c :: s)
          end = (10%Z, c :: s)) as ->.
  { destruct s as [|x s']; [done|]. cbn [forallb] in Hs.
    apply andb_true_iff in Hs as [[Hx1 Hx2]%andb_true_iff _].
    apply N.leb_le in Hx1, Hx2.
    destruct (N.eqb_spec x 120); [lia|]. destruct (N.eqb_spec x 88); [lia|].
    by rewrite andb_false_r. }
  cbn [leadingDigits]. rewrite (isDigit_digitValue c Hc). reflexivity.
Qed.

Lemma toNumber_exact (z : Z) :
  (- 2 ^ 53 < z < 2 ^ 53)%Z -> toNumber z = Num z.
Proof.
  intros Hz. unfold toNumber, roundMagnitude.
  destruct (Z.ltb_spec z 0).
  - destruct (Z.ltb_spec (- z) (2 ^ 53)); [|lia]. cbn [negate]. f_equal. lia.
  - destruct (Z.ltb_spec z (2 ^ 53)); [done | lia].
Qed.

(** Below [2^53] the comparator is the difference of the identifiers. *)
Lemma compareByNumber_exact (a b : QRCodeData) :
  allDigits (number a) = true -> allDigits (number b) = true ->
  (0 <= decimalValue (number a) < 2 ^ 53)%Z ->
  (0 <= decimalValue (number b) < 2 ^ 53)%Z ->
  compareByNumber a b = Num (decimalValue (number a) - decimalValue (number b)).
Proof.
  intros Ha Hb Hva Hvb. unfold compareByNumber.
  rewrite !parseInt_digits, !toNumber_exact by (done || lia).
  cbn [numSub]. apply toNumber_exact. lia.
Qed.

Section SortByKey.
Context {A : Type} (cmp : A -> A -> jsnumber) (key : A -> Z).

Lemma sortInsert_sorted (x : A) (l : list A) :
  ordersBy cmp key (x :: l) ->
  StronglySorted (fun a b => key a <= key b)%Z l ->
  StronglySorted (fun a b => key a <= key b)%Z (sortInsert cmp x l).
Proof.
  intros Hord Hsorted. induction Hsorted as [|y l Hsorted IH Hy]; cbn [sortInsert].
  - repeat constructor.
  - rewrite Hord by (rewrite !elem_of_cons; eauto).
    destruct (Z.ltb_spec (key y) (key x)) as [Hlt|Hge].
    + constructor.
      * apply IH. intros a b Ha Hb. apply Hord.
        -- apply elem_of_cons in Ha as [-> | Ha]; rewrite !elem_of_cons; eauto.
        -- apply elem_of_cons in Hb as [-> | Hb]; rewrite !elem_of_cons; eauto.
      * rewrite sortInsert_Permutation. constructor; [lia | done].
    + constructor; [by constructor|]. constructor; [done|].
      eapply Forall_impl; [exact Hy|]. intros z Hz. cbn in Hz. lia.
Qed.

(** The result of the sort is in ascending order of [key]. *)
Lemma arraySort_sorted (l : list A) :
  ordersBy cmp key l -> StronglySorted (fun a b => key a <= key b)%Z (arraySort cmp l).
Proof.
  induction l as [|x l IH]; intros Hord; cbn [arraySort]; [constructor|].
  apply sortInsert_sorted.
  - intros a b Ha Hb. apply Hord.
    + apply elem_of_cons in Ha as [-> | Ha]; [apply list_elem_of_here|].
      apply list_elem_of_further. by rewrite <- (arraySort_Permutation cmp l).
    + apply elem_of_cons in Hb as [-> | Hb]; [apply list_elem_of_here|].
      apply list_elem_of_further. by rewrite <- (arraySort_Permutation cmp l).
  - apply IH. intros a b Ha Hb. apply Hord; by apply list_elem_of_further.
Qed.

Lemma sortInsert_stable (k : Z) (x : A) (l : list A) :
  ordersBy cmp key (x :: l) ->
  List.filter (fun a => key a =? k)%Z (sortInsert cmp x l)
  = List.filter (fun a => key a =? k)%Z (x :: l).
Proof.
  induction l as [|y l IH]; intros Hord; cbn [sortInsert]; [done|].
  rewrite Hord by (rewrite !elem_of_cons; eauto).
  destruct (Z.ltb_spec (key y) (key x)) as [Hlt|Hge]; [|done].
  cbn [List.filter]. rewrite IH.
  - cbn [List.filter].
    destruct (Z.eqb_spec (key x) k), (Z.eqb_spec (key y) k); try done. lia.
  - intros a b Ha Hb. apply Hord.
    + apply elem_of_cons in Ha as [-> | Ha]; rewrite !elem_of_cons; eauto.
    + apply elem_of_cons in Hb as [-> | Hb]; rewrite !elem_of_cons; eauto.
Qed.

(** The sort is stable: elements of equal [key] keep their order. *)
Lemma arraySort_stable (k : Z) (l : list A) :
  ordersBy cmp key l ->
  List.filter (fun a => key a =? k)%Z (arraySort cmp l)
  = List.filter (fun a => key a =? k)%Z l.
Proof.
  induction l as [|x l IH]; intros Hord; cbn [arraySort]; [done|].
  rewrite sortInsert_stable.
  - cbn [List.filter]. rewrite IH; [done|].
    intros a b Ha Hb. apply Hord; by apply list_elem_of_further.
  - intros a b Ha Hb. apply Hord.
    + apply elem_of_cons in Ha as [-> | Ha]; [apply list_elem_of_here|].
      apply list_elem_of_further. by rewrite <- (arraySort_Permutation cmp l).
    + apply elem_of_cons in Hb as [-> | Hb]; [apply list_elem_of_here|].
      apply list_elem_of_further. by rewrite <- (arraySort_Permutation cmp l).
Qed.

End SortByKey.

Lemma decimalValue_nonneg (s : jsstring) : (0 <= decimalValue s)%Z.
Proof.
  unfold decimalValue, digitsValue.
  assert (forall ds acc, Forall (fun d => 0 <= d)%Z ds -> (0 <= acc)%Z ->
            (0 <= fold_left (fun acc d => acc * 10 + d) ds acc)%Z) as Hfold.
  { induction ds as [|d ds IH]; intros acc Hds Hacc; [done|].
    apply Forall_cons in Hds as [Hd Hds]. cbn [fold_left]. apply IH; [done | lia]. }
  apply Hfold; [|done].
  induction s as [|c s IH]; cbn [leadingDigits]; [constructor|].
  unfold digitValue.
  destruct (_ && _) eqn:E; [|by rewrite !andb_false_l].
  apply andb_true_iff in E as [E1%Z.leb_le _]. constructor; [lia | done].
Qed.

(** Records whose identifiers are strings of digits below [2^53] are sorted
    into ascending numeric order, those with the same numeric value (such as
    [7] and [007]) staying in the order they had. *)
Lemma arraySort_numeric_below_2_53 (qrCodes : list QRCodeData) :
  Forall (fun r => allDigits (number r) = true /\
                   (decimalValue (number r) < 2 ^ 53)%Z) qrCodes ->
  arraySort compareByNumber qrCodes ≡ₚ qrCodes /\
  StronglySorted (fun a b => decimalValue (number a) <= decimalValue (number b))%Z
    (arraySort compareByNumber qrCodes) /\
  forall k,
    List.filter (fun r => decimalValue (number r) =? k)%Z
      (arraySort compareByNumber qrCodes)
    = List.filter (fun r => decimalValue (number r) =? k)%Z qrCodes.
Proof.
  intros Hsmall.
  assert (ordersBy compareByNumber (fun r => decimalValue (number r)) qrCodes)
    as Hord.
  { rewrite List.Forall_forall in Hsmall. intros a b Ha Hb.
    destruct (Hsmall a) as [Hda Hva]; [by apply list_elem_of_In|].
    destruct (Hsmall b) as [Hdb Hvb]; [by apply list_elem_of_In|].
    pose proof (decimalValue_nonneg (number a)).
    pose proof (decimalValue_nonneg (number b)).
    rewrite compareByNumber_exact by (done || lia). cbn [isPositive].
    destruct (Z.ltb_spec 0 (decimalValue (number a) - decimalValue (number b)));
      destruct (Z.ltb_spec (decimalValue (number b)) (decimalValue (number a)));
      (done || lia). }
  split_and!.
  - apply arraySort_Permutation.
  - by apply arraySort_sorted.
  - intros k. by apply arraySort_stable.
Qed.

(** ** The comparator on identifiers of any length *)

Lemma roundMagnitude_range (n : Z) :
  (0 <= n)%Z ->
  roundMagnitude n = PosInf \/
  exists v, roundMagnitude n = Num v /\ (0 <= v < 2 ^ 1024)%Z /\
            ((0 < v)%Z <-> (0 < n)%Z).
Proof.
  intros Hn. unfold roundMagnitude.
  assert (2 ^ 53 < 2 ^ 1024)%Z as Hpow by (apply Z.pow_lt_mono_r; lia).
  destruct (Z.ltb_spec n (2 ^ 53)) as [Hsmall|Hbig].
  { right. exists n. split_and!; [done | lia | lia | done]. }
  cbn zeta.
  set (sh := (Z.log2 n - 52)%Z).
  assert (53 <= Z.log2 n)%Z as Hlog.
  { rewrite <- (Z.log2_pow2 53) by lia. by apply Z.log2_le_mono. }
  assert (0 < 2 ^ sh)%Z as Hsh by (apply Z.pow_pos_nonneg; lia).
  assert (2 ^ sh <= n)%Z as Hle.
  { apply Z.le_trans with (2 ^ Z.log2 n)%Z.
    - apply Z.pow_le_mono_r; lia.
    - apply Z.log2_spec. lia. }
  assert (1 <= n / 2 ^ sh)%Z as Hq.
  { apply Z.div_le_lower_bound; lia. }
  match goal with
  | |- context [if ?c then (?a + 1)%Z else ?a] =>
      set (q' := if c then (a + 1)%Z else a);
      assert (1 <= q')%Z as Hq' by (subst q'; destruct c; lia)
  end.
  destruct (Z.leb_spec (2 ^ 1024) (q' * 2 ^ sh)) as [|Hfin]; [by left|].
  right. exists (q' * 2 ^ sh)%Z. split_and!; [done | nia | done |].
  split; [lia | nia].
Qed.

Lemma toNumber_sign (z : Z) :
  isPositive (toNumber z) = (0 <? z)%Z.
Proof.
  unfold toNumber. destruct (Z.ltb_spec z 0) as [Hneg|Hpos].
  - destruct (roundMagnitude_range (- z)) as [-> | (d & -> & Hd & _)]; [lia | |].
    + cbn. symmetry. apply Z.ltb_ge. lia.
    + cbn. destruct (Z.ltb_spec 0 (- d)), (Z.ltb_spec 0 z); (done || lia).
  - destruct (roundMagnitude_range z) as [Hinf | (d & -> & Hd & Hdpos)]; [lia | |].
    + rewrite Hinf. cbn. symmetry. apply Z.ltb_lt.
      destruct (Z.eq_dec z 0%Z) as [->|]; [|lia]. by vm_compute in Hinf.
    + cbn. destruct (Z.ltb_spec 0 d), (Z.ltb_spec 0 z); (done || lia).
Qed.

Lemma toNumber_nonneg (z : Z) : (0 <= z)%Z -> toNumber z = roundMagnitude z.
Proof. intros Hz. unfold toNumber. by destruct (Z.ltb_spec z 0); [lia|]. Qed.

(** On identifiers made of digits, of any length, the comparator orders by
    the double nearest to the identifier: it is a consistent comparator. *)
Lemma compareByNumber_doubleKey (a b : QRCodeData) :
  allDigits (number a) = true -> allDigits (number b) = true ->
  isPositive (compareByNumber a b) = (doubleKey b <? doubleKey a)%Z.
Proof.
  intros Ha Hb. unfold compareByNumber, doubleKey.
  rewrite !parseInt_digits by done.
  pose proof (decimalValue_nonneg (number a)) as Hva.
  pose proof (decimalValue_nonneg (number b)) as Hvb.
  rewrite !toNumber_nonneg by done.
  destruct (roundMagnitude_range _ Hva) as [-> | (x & -> & Hx & _)];
    destruct (roundMagnitude_range _ Hvb) as [-> | (y & -> & Hy & _)];
    cbn [numSub isPositive].
  - symmetry. apply Z.ltb_irrefl.
  - symmetry. apply Z.ltb_lt. lia.
  - symmetry. apply Z.ltb_ge. lia.
  - rewrite toNumber_sign.
    destruct (Z.ltb_spec 0 (x - y)), (Z.ltb_spec y x); (done || lia).
Qed.

(** For every batch of records whose identifiers are made of digits, the
    sort leaves the array in ascending order of [doubleKey], records of
    equal key in their former order. *)
Lemma arraySort_by_doubleKey (qrCodes : list QRCodeData) :
  Forall (fun r => allDigits (number r) = true) qrCodes ->
  StronglySorted (fun a b => doubleKey a <= doubleKey b)%Z
    (arraySort compareByNumber qrCodes) /\
  forall k,
    List.filter (fun r => doubleKey r =? k)%Z (arraySort compareByNumber qrCodes)
    = List.filter (fun r => doubleKey r =? k)%Z qrCodes.
Proof.
  intros Hdigits.
  assert (ordersBy compareByNumber doubleKey qrCodes) as Hord.
  { rewrite List.Forall_forall in Hdigits. intros a b Ha Hb.
    apply compareByNumber_doubleKey; apply Hdigits; by apply list_elem_of_In. }
  split; [by apply arraySort_sorted | intros k; by apply arraySort_stable].
Qed.

(** ** The records of a batch of a run *)

Lemma encodeLines_sources (pw : jsstring) (lines : list jsstring) :
  Forall (fun r => exists line tr, line ∈ lines /\ encodeLine pw line = (tr, Ok r))
    (encodeLines pw lines).1.2.
Proof.
  induction lines as [|line lines IH]; [constructor|].
  cbn [encodeLines].
  destruct (encodeLine pw line) as [tr [r|e]] eqn:Hline; [|constructor].
  destruct (encodeLines pw lines) as [[tr' rs] err]. cbn [fst snd] in *.
  constructor.
  - exists line, tr. split; [apply list_elem_of_here | done].
  - eapply Forall_impl; [exact IH|]. intros r' (l' & t' & Hin & Henc).
    exists l', t'. split; [by apply list_elem_of_further | done].
Qed.

(** The records encoded from valid lines have identifiers made of digits,
    and two of them with the same identifier are the same record: these are
    the records [downloadBatch] receives in a run. *)
Lemma encodeLines_records (pw : jsstring) (lines : list jsstring) :
  Forall validLine lines ->
  Forall (fun r => allDigits (number r) = true) (encodeLines pw lines).1.2 /\
  forall r1 r2,
    r1 ∈ (encodeLines pw lines).1.2 -> r2 ∈ (encodeLines pw lines).1.2 ->
    number r1 = number r2 -> r1 = r2.
Proof.
  intros Hvalid. pose proof (encodeLines_sources pw lines) as Hsrc.
  rewrite List.Forall_forall in Hsrc, Hvalid. split.
  - apply List.Forall_forall. intros r Hr.
    destruct (Hsrc r Hr) as (line & tr & Hline & [Hnum _]%encodeLine_record).
    rewrite Hnum. apply Hvalid. by apply list_elem_of_In.
  - intros r1 r2 Hr1%list_elem_of_In Hr2%list_elem_of_In Hnum.
    destruct (Hsrc r1 Hr1) as (l1 & t1 & _ & [_ (h1 & Hh1 & Hu1 & Hq1)]%encodeLine_record).
    destruct (Hsrc r2 Hr2) as (l2 & t2 & _ & [_ (h2 & Hh2 & Hu2 & Hq2)]%encodeLine_record).
    rewrite Hnum in Hh1. rewrite Hh1 in Hh2. injection Hh2 as <-.
    rewrite Hnum in Hu1. rewrite <- Hu2 in Hu1.
    rewrite Hu1 in Hq1. rewrite Hq1 in Hq2. injection Hq2 as Hq.
    destruct r1, r2. cbn in *. by subst.
Qed.

(** No run modifies the loaded list or the password. *)
Lemma generateAndDownloadQRCodes_keeps_inputs (w : World) :
  sameInputs w (generateAndDownloadQRCodes w).1.
Proof.
  destruct (decide (fileContent (appState w) = [] \/
                    (version = UserSecret /\ password (appState w) = []))) as [Hpre|Hpre].
  { by rewrite (generateAndDownloadQRCodes_guarded w Hpre). }
  destruct (generateAndDownloadQRCodes_spec w) as (w' & -> & H).
  - intros Hfc. apply Hpre. by left.
  - intros Hv Hp. apply Hpre. by right.
  - cbn [fst]. apply H.
Qed.

(** * Further properties *)

(** ** The lines of a file *)

Lemma trimStart_elem (s : jsstring) (x : N) : x ∈ trimStart s -> x ∈ s.
Proof.
  induction s as [|c s IH]; cbn [trimStart]; [done|].
  destruct (isWhiteSpace c); [|done]. intros Hx%IH. by apply list_elem_of_further.
Qed.

Lemma trim_elem (s : jsstring) (x : N) : x ∈ trim s -> x ∈ s.
Proof.
  unfold trim, trimEnd. rewrite list_elem_of_In, <- in_rev, <- list_elem_of_In.
  intros Hx%trimStart_elem. apply trimStart_elem.
  by rewrite list_elem_of_In, in_rev, <- list_elem_of_In.
Qed.

Lemma trimStart_fixed (s : jsstring) :
  match s with [] => True | c :: _ => isWhiteSpace c = false end ->
  trimStart s = s.
Proof. destruct s as [|c s]; [done|]. cbn [trimStart]. by intros ->. Qed.

(** Trimming a trimmed string changes nothing. *)
Lemma trim_trim (s : jsstring) : trim (trim s) = trim s.
Proof.
  unfold trim at 1. rewrite (trimStart_fixed (trim s)).
  - unfold trim, trimEnd. rewrite rev_involutive.
    by rewrite (trimStart_fixed _ (trimStart_head _)).
  - destruct (trim s) as [|c r] eqn:E; [done|]. by apply (trim_head s c r).
Qed.

Lemma splitLines_elem (s l : jsstring) (x : N) :
  l ∈ splitLines s -> x ∈ l -> x ∈ s /\ x <> 10%N.
Proof.
  revert l. induction s as [|c s IH]; intros l; cbn [splitLines].
  - intros ->%list_elem_of_singleton Hx. by apply not_elem_of_nil in Hx.
  - destruct (N.eqb_spec c 10) as [->|Hc].
    + intros [-> | Hl]%elem_of_cons Hx; [by apply not_elem_of_nil in Hx|].
      destruct (IH l Hl Hx). split; [by apply list_elem_of_further | done].
    + destruct (splitLines s) as [|l0 ls] eqn:E.
      * intros ->%list_elem_of_singleton ->%list_elem_of_singleton.
        split; [apply list_elem_of_here | done].
      * intros [-> | Hl]%elem_of_cons Hx.
        -- apply elem_of_cons in Hx as [-> | Hx]; [split; [apply list_elem_of_here | done]|].
           destruct (IH l0 (list_elem_of_here _ _) Hx).
           split; [by apply list_elem_of_further | done].
        -- destruct (IH l (list_elem_of_further _ _ _ Hl) Hx).
           split; [by apply list_elem_of_further | done].
Qed.

Lemma fileLines_Forall (text : jsstring) :
  Forall (fun line =>
            line <> [] /\ trim line = line /\ (10%N ∉ line) /\
            forall x, x ∈ line -> x ∈ text)
    (fileLines text).
Proof.
  apply List.Forall_forall. intros line Hin%list_elem_of_In.
  destruct (fileLines_spec text line Hin) as (Hne & s & Hs & ->).
  split_and!; [done | apply trim_trim | |].
  - intros Hx%trim_elem. by destruct (splitLines_elem text s _ Hs Hx).
  - intros x Hx%trim_elem. by destruct (splitLines_elem text s _ Hs Hx).
Qed.

(** X1: every line that [handleFileUpload] reads from a text is non-empty,
    holds no line feed, has no white space at either end (trimming it again
    changes nothing), and is made of code units of the text. *)
Theorem fileLines_trimmed (text : jsstring) :
  Forall (fun line =>
            line <> [] /\ trim line = line /\ (10%N ∉ line) /\
            forall x, x ∈ line -> x ∈ text)
    (fileLines text).
Proof. apply fileLines_Forall. Qed.

Lemma splitLines_no_LF (l : jsstring) : 10%N ∉ l -> splitLines l = [l].
Proof.
  induction l as [|c l IH]; [done|]. intros Hnot. cbn [splitLines].
  destruct (N.eqb_spec c 10) as [->|_].
  - exfalso. apply Hnot, list_elem_of_here.
  - rewrite IH; [done|]. intros H. by apply Hnot, list_elem_of_further.
Qed.

Lemma splitLines_app_LF (l s : jsstring) :
  10%N ∉ l -> splitLines (l ++ 10%N :: s) = l :: splitLines s.
Proof.
  induction l as [|c l IH]; intros Hnot; [done|].
  cbn [app splitLines]. destruct (N.eqb_spec c 10) as [->|_].
  - exfalso. apply Hnot, list_elem_of_here.
  - rewrite IH; [done|]. intros H. by apply Hnot, list_elem_of_further.
Qed.

Lemma trimEnd_snoc_space (s : jsstring) (c : N) :
  isWhiteSpace c = true -> trimEnd (s ++ [c]) = trimEnd s.
Proof. intros Hc. unfold trimEnd. rewrite rev_unit. cbn [trimStart]. by rewrite Hc. Qed.

Lemma trimStart_snoc_space (s : jsstring) (c : N) :
  isWhiteSpace c = true ->
  trimStart (s ++ [c]) = [] \/ trimStart (s ++ [c]) = trimStart s ++ [c].
Proof.
  intros Hc. induction s as [|d s IH]; cbn [app trimStart].
  - rewrite Hc. by left.
  - destruct (isWhiteSpace d); [done | by right].
Qed.

Lemma trimStart_nil_snoc (s : jsstring) (c : N) :
  trimStart (s ++ [c]) = [] -> trimStart s = [].
Proof.
  induction s as [|d s IH]; cbn [app trimStart]; [done|].
  destruct (isWhiteSpace d); [done | discriminate].
Qed.

(** A carriage return (or any white space) at the end of a line is trimmed
    away. *)
Lemma trim_snoc_space (s : jsstring) (c : N) :
  isWhiteSpace c = true -> trim (s ++ [c]) = trim s.
Proof.
  intros Hc. unfold trim.
  destruct (trimStart_snoc_space s c Hc) as [Hnil | ->].
  - by rewrite Hnil, (trimStart_nil_snoc s c Hnil).
  - by apply trimEnd_snoc_space.
Qed.

Lemma joinWith_cons (sep l l' : jsstring) (ls : list jsstring) :
  joinWith sep (l :: l' :: ls) = l ++ sep ++ joinWith sep (l' :: ls).
Proof. done. Qed.

Lemma splitLines_joinLF (ls : list jsstring) :
  ls <> [] -> Forall (fun l => 10%N ∉ l) ls ->
  splitLines (joinWith [10%N] ls) = ls.
Proof.
  induction ls as [|l ls IH]; [done|]. intros _ [Hl Hls]%Forall_cons.
  destruct ls as [|l' ls].
  - by apply splitLines_no_LF.
  - rewrite joinWith_cons. cbn [app].
    rewrite splitLines_app_LF by done. f_equal. by apply IH.
Qed.

Lemma map_trim_splitLines_joinCRLF (ls : list jsstring) :
  ls <> [] -> Forall (fun l => 10%N ∉ l) ls ->
  map trim (splitLines (joinWith [13%N; 10%N] ls)) = map trim ls.
Proof.
  induction ls as [|l ls IH]; [done|]. intros _ [Hl Hls]%Forall_cons.
  destruct ls as [|l' ls].
  - cbn [joinWith]. by rewrite splitLines_no_LF.
  - rewrite joinWith_cons.
    change (l ++ [13%N; 10%N] ++ joinWith [13%N; 10%N] (l' :: ls))
      with (l ++ [13%N] ++ 10%N :: joinWith [13%N; 10%N] (l' :: ls)).
    rewrite app_assoc, splitLines_app_LF.
    + cbn [map]. rewrite trim_snoc_space by done. f_equal. by apply IH.
    + intros [H | H%list_elem_of_singleton]%elem_of_app; done.
Qed.

(** X2: a file made of lines joined by line feeds, or by carriage return and
    line feed, loads as those lines trimmed, the empty ones dropped: the two
    line endings give the same list. *)
Theorem fileLines_joined (ls : list jsstring) :
  Forall (fun l => 10%N ∉ l) ls ->
  fileLines (joinWith [10%N] ls)
    = List.filter (fun line => negb (length line =? 0)%nat) (map trim ls) /\
  fileLines (joinWith [13%N; 10%N] ls) = fileLines (joinWith [10%N] ls).
Proof.
  intros Hls. destruct ls as [|l ls]; [done|].
  unfold fileLines.
  rewrite splitLines_joinLF, map_trim_splitLines_joinCRLF by done. done.
Qed.

Lemma trim_blank (s : jsstring) : Forall (fun c => isWhiteSpace c = true) s -> trim s = [].
Proof.
  intros Hs. unfold trim. assert (trimStart s = []) as ->; [|done].
  induction Hs as [|c s Hc _ IH]; cbn [trimStart]; [done|]. by rewrite Hc.
Qed.

(** A text of white space only has no line to load. *)
Lemma fileLines_blank (text : jsstring) :
  Forall (fun c => isWhiteSpace c = true) text -> fileLines text = [].
Proof.
  intros Hblank. unfold fileLines.
  assert (Forall (fun s => Forall (fun c => isWhiteSpace c = true) s)
            (splitLines text)) as Hpieces.
  { apply List.Forall_forall. intros s Hs%list_elem_of_In.
    apply List.Forall_forall. intros x Hx%list_elem_of_In.
    destruct (splitLines_elem text s x Hs Hx) as [Hin _].
    rewrite List.Forall_forall in Hblank. apply Hblank. by apply list_elem_of_In. }
  induction Hpieces as [|s ss Hs _ IH]; [done|].
  cbn [map List.filter]. by rewrite (trim_blank s Hs).
Qed.

(** ** [handleFileUpload] on every file *)

(** The three ways [handleFileUpload] ends on a chosen file. *)
Lemma handleFileUpload_cases (f : result jsstring) (w : World) :
  handleFileUpload (Some f) w =
  (mkWorld
     (let s := appState w in
      match f with
      | Throw err =>
          mkAppState
            (match err with
             | ErrorObject message => message
             | Thrown _ => lit "Erro ao processar arquivo"
             end)
            (debugInfo s) (password s) [] (isProcessing s) (currentBatch s)
      | Ok text =>
          match firstInvalid (fileLines text) with
          | Some bad =>
              mkAppState (invalidLineMessage bad) (debugInfo s) (password s) []
                (isProcessing s) (currentBatch s)
          | None =>
              mkAppState [] (loadedMessage (length (fileLines text))) (password s)
                (fileLines text) (isProcessing s) (currentBatch s)
          end
      end)
     (heap w) (trace w),
   Ok ()).
Proof.
  unfold handleFileUpload, tryCatch, liftResult. unfold bind at 1.
  destruct f as [text|err]; [|done].
  unfold bind at 1. rewrite forOf_validateLine.
  by destruct (firstInvalid (fileLines text)).
Qed.

Lemma invalidLineMessage_nonempty (line : jsstring) : invalidLineMessage line <> [].
Proof.
  unfold invalidLineMessage. intros H%(f_equal length).
  rewrite length_app in H. change (length (lit "Linha cont")) with 10 in H.
  cbn in H. lia.
Qed.

(** X3: whatever file is chosen, [handleFileUpload] ends normally and
    touches only [error], [debugInfo] and [fileContent]: the heap, the
    trace, the password, the processing flag and the current batch are as
    they were.  With no file the state is unchanged; with a file, either the
    list is replaced by valid lines and the error is cleared, or the list is
    emptied. *)
Theorem handleFileUpload_never_throws (file : option (result jsstring)) (w : World) :
  exists w',
    handleFileUpload file w = (w', Ok ()) /\
    heap w' = heap w /\ trace w' = trace w /\
    password (appState w') = password (appState w) /\
    isProcessing (appState w') = isProcessing (appState w) /\
    currentBatch (appState w') = currentBatch (appState w) /\
    match file with
    | None => w' = w
    | Some _ =>
        (error (appState w') = [] /\ Forall validLine (fileContent (appState w')))
        \/ fileContent (appState w') = []
    end.
Proof.
  destruct file as [f|]; [|by exists w].
  eexists. split; [apply handleFileUpload_cases|].
  cbn [appState heap trace]. split_and!; try by destruct f as [text|err];
    [destruct (firstInvalid (fileLines text))|].
  destruct f as [text|err]; [|by right].
  destruct (firstInvalid (fileLines text)) eqn:E; [by right|].
  left. split; [done|]. by apply firstInvalid_None.
Qed.

(** X4: after a text is chosen, the error box is absent exactly when every
    line is valid, in which case the button is rendered exactly when some
    line was loaded; when a line is invalid the box shows the message that
    quotes the first such line and the button is not rendered. *)
Theorem render_after_upload (text : jsstring) (w : World) :
  let view := render (appState (handleFileUpload (Some (Ok text)) w).1) in
  (errorBox view = None <-> Forall validLine (fileLines text)) /\
  (is_Some (generateButton view) <->
     Forall validLine (fileLines text) /\ fileLines text <> []) /\
  (forall bad, firstInvalid (fileLines text) = Some bad ->
     errorBox view = Some (invalidLineMessage bad) /\ generateButton view = None).
Proof.
  rewrite handleFileUpload_cases. cbn [fst appState]. unfold render.
  destruct (firstInvalid (fileLines text)) as [bad|] eqn:E;
    cbn [error fileContent isProcessing].
  - assert (~ Forall validLine (fileLines text)) as Hnot.
    { intros H%firstInvalid_None. congruence. }
    rewrite bool_decide_eq_false_2 by apply invalidLineMessage_nonempty.
    cbn. split_and!.
    + split; [done | intros H; by destruct Hnot].
    + split; [by intros [? [=]] | by intros [H _]].
    + by intros ? [= <-].
  - apply firstInvalid_None in E as Hvalid.
    rewrite bool_decide_eq_true_2 by done. split_and!.
    + done.
    + destruct (fileLines text) as [|l ls]; cbn.
      * split; [by intros [? [=]] | by intros [_ ?]].
      * split; [done | eauto].
    + intros bad [=].
Qed.

(** X5: a file of white space only (empty, or blank lines) is accepted with
    no line: the error is cleared, zero lines are reported and the button is
    not rendered; a generation run started all the same calls no library
    and only shows the message of the guard that fires. *)
Theorem blank_file_loads_nothing (text : jsstring) (w : World) :
  Forall (fun c => isWhiteSpace c = true) text ->
  let w1 := (handleFileUpload (Some (Ok text)) w).1 in
  let w2 := (generateAndDownloadQRCodes w1).1 in
  fileContent (appState w1) = [] /\
  error (appState w1) = [] /\
  debugInfo (appState w1) = loadedMessage 0 /\
  generateButton (render (appState w1)) = None /\
  trace w2 = trace w /\ heap w2 = heap w /\
  errorBox (render (appState w2))
    = Some (if bool_decide (version = UserSecret /\ password (appState w) = [])
            then noPasswordMessage else noFileMessage).
Proof.
  intros Hblank%fileLines_blank. cbn zeta.
  rewrite handleFileUpload_cases, Hblank. cbn [fst firstInvalid List.find length].
  rewrite generateAndDownloadQRCodes_guarded by (by left).
  unfold_M. cbn [fst error debugInfo fileContent password]. unfold render.
  cbn [error fileContent length]. split_and!; try done.
  case_bool_decide; by rewrite bool_decide_eq_false_2.
Qed.

(** ** What every reachable state satisfies *)

Lemma handle_keeps_loadedLines (a : action) (w : World) :
  Forall loadedLine (fileContent (appState w)) ->
  Forall loadedLine (fileContent (appState (handle a w).1)).
Proof.
  intros Hw. destruct a as [[f|]|value|]; cbn [handle].
  - rewrite handleFileUpload_cases. cbn [fst appState].
    destruct f as [text|err]; [|constructor].
    destruct (firstInvalid (fileLines text)) eqn:E; [constructor|].
    cbn [fileContent]. apply firstInvalid_None in E.
    pose proof (fileLines_Forall text) as Htrim.
    rewrite List.Forall_forall in E, Htrim. apply List.Forall_forall.
    intros line Hline. destruct (Htrim line Hline) as (Hne & Hfix & _).
    split_and!; [by apply E | done | done].
  - done.
  - done.
  - destruct (generateAndDownloadQRCodes_keeps_inputs w) as [-> _]. done.
Qed.

(** X6: in every state reached from the first render by choosing files,
    typing passwords and running generations, in any order, every stored
    line is trimmed, non-empty and made of digits once its white space is
    removed, so that no run meets a line the parser would refuse and every
    record encoded from a stored line has an identifier made of digits. *)
Theorem reachable_lines_loaded (actions : list action) :
  Forall loadedLine (fileContent (appState (handleAll actions initialWorld))) /\
  forall pw line tr r,
    line ∈ fileContent (appState (handleAll actions initialWorld)) ->
    encodeLine pw line = (tr, Ok r) -> allDigits (number r) = true.
Proof.
  assert (forall w, Forall loadedLine (fileContent (appState w)) ->
            Forall loadedLine (fileContent (appState (handleAll actions w)))) as Hall.
  { induction actions as [|a actions IH]; intros w Hw; [done|].
    cbn [handleAll]. by apply IH, handle_keeps_loadedLines. }
  assert (Forall loadedLine (fileContent (appState (handleAll actions initialWorld))))
    as Hreach by (apply Hall; constructor).
  split; [done|].
  intros pw line tr r Hline [Hnum _]%encodeLine_record. rewrite Hnum.
  rewrite List.Forall_forall in Hreach.
  by destruct (Hreach line) as [Hvalid _]; [apply list_elem_of_In|].
Qed.

(** ** [processBatch] on every range *)

Lemma forRange_encodeInto_any (fc : list jsstring) (pw : jsstring) (l : nat)
    (n i : nat) (acc : list QRCodeData) (w : World) :
  heap w !! l = Some acc ->
  forRange i n (encodeInto fc pw l) w =
  let '(tr, rs, e) := encodeLines pw (take n (drop i fc)) in
  (mkWorld (appState w) (<[l := acc ++ rs]> (heap w)) (trace w ++ tr),
   match e with
   | Some e => Throw e
   | None =>
       if (length (take n (drop i fc)) <? n)%nat
       then Throw (ErrorObject (lit "TypeError")) else Ok ()
   end).
Proof.
  revert i acc w. induction n as [|n IH]; intros i acc w Hl.
  - rewrite take_0. cbn [forRange encodeLines length Nat.ltb Nat.leb]. unfold ret.
    rewrite !app_nil_r, insert_id by done. by rewrite world_eta.
  - destruct (fc !! i) as [line|] eqn:Hline.
    + rewrite (drop_S _ _ _ Hline), firstn_cons. cbn [forRange]. unfold bind at 1.
      rewrite (encodeInto_spec _ _ _ _ acc line) by done. cbn [encodeLines].
      destruct (encodeLine pw line) as [tr [r|e]].
      * rewrite (IH (S i) (acc ++ [r])) by (by cbn; rewrite lookup_insert_eq).
        destruct (encodeLines pw (take n (drop (S i) fc))) as [[tr' rs] e].
        cbn [heap appState trace length]. rewrite insert_insert_eq, <- !app_assoc.
        done.
      * by rewrite app_nil_r, insert_id.
    + rewrite drop_ge by (by apply lookup_ge_None). rewrite take_nil.
      cbn [forRange encodeLines length Nat.ltb Nat.leb].
      unfold bind at 1, encodeInto. unfold bind at 1, lineAt. rewrite Hline.
      cbn. rewrite !app_nil_r, insert_id by done. by rewrite world_eta.
Qed.

Lemma processBatch_any (fc : list jsstring) (pw : jsstring) (s e : nat) (w : World) :
  processBatch fc s e pw w =
  let l := fresh (dom (heap w)) in
  let '(tr, rs, err) := encodeLines pw (slice s e fc) in
  (mkWorld (appState w) (<[l := rs]> (heap w)) (trace w ++ tr),
   match err with
   | Some e => Throw e
   | None =>
       if (length (slice s e fc) <? e - s)%nat
       then Throw (ErrorObject (lit "TypeError")) else Ok l
   end).
Proof.
  unfold processBatch, newArray. unfold bind at 1. cbn [fst snd].
  unfold bind at 1.
  rewrite (forRange_encodeInto_any _ _ _ _ _ [])
    by (by cbn; rewrite lookup_insert_eq).
  unfold slice. destruct (encodeLines pw _) as [[tr rs] err].
  unfold withHeap, ret. cbn [heap appState trace app]. rewrite insert_insert_eq.
  destruct err; [done|]. by destruct (_ <? _)%nat.
Qed.

Lemma slice_length {A} (s e : nat) (l : list A) :
  e <= length l -> length (slice s e l) = e - s.
Proof. intros He. unfold slice. rewrite length_take, length_drop. lia. Qed.

Lemma encodeLines_app_fail (pw : jsstring) (before : list jsstring)
    (bad : jsstring) (after : list jsstring) (err : exn) :
  Forall (fun line => exists tr r, encodeLine pw line = (tr, Ok r)) before ->
  (encodeLine pw bad).2 = Throw err ->
  exists rs,
    length rs = length before /\
    encodeLines pw (before ++ bad :: after)
    = (concat (map (fun line => (encodeLine pw line).1) before)
         ++ (encodeLine pw bad).1, rs, Some err).
Proof.
  intros Hbefore Hbad. induction Hbefore as [|line before (tr & r & Hline) _ IH].
  - exists []. cbn [app encodeLines map concat length].
    destruct (encodeLine pw bad) as [tr' res]. cbn [fst snd] in *. by subst res.
  - destruct IH as (rs & Hlen & Heq). exists (r :: rs).
    cbn [app encodeLines map concat length]. rewrite Hline, Heq. cbn [fst].
    by rewrite Hlen, <- app_assoc.
Qed.

(** X7: [processBatch] stops at the first line whose hashing or encoding
    fails: the exception of the library is the one thrown, the trace holds
    the calls for the lines before it and those made for the failing line,
    none for a later line, and the new array holds one record per line that
    succeeded; the React state and the arrays that existed are untouched. *)
Theorem processBatch_stops_at_first_failure (fc : list jsstring) (pw : jsstring)
    (s e : nat) (w : World) (before : list jsstring) (bad : jsstring)
    (after : list jsstring) (err : exn) :
  slice s e fc = before ++ bad :: after ->
  Forall (fun line => exists tr r, encodeLine pw line = (tr, Ok r)) before ->
  (encodeLine pw bad).2 = Throw err ->
  exists w' rs,
    processBatch fc s e pw w = (w', Throw err) /\
    trace w' = trace w
      ++ concat (map (fun line => (encodeLine pw line).1) before)
      ++ (encodeLine pw bad).1 /\
    heap w !! fresh (dom (heap w)) = None /\
    heap w' !! fresh (dom (heap w)) = Some rs /\ length rs = length before /\
    appState w' = appState w /\ heapKept w w'.
Proof.
  intros Hslice Hbefore Hbad.
  destruct (encodeLines_app_fail pw before bad after err Hbefore Hbad)
    as (rs & Hlen & Heq).
  rewrite processBatch_any, Hslice, Heq. cbn zeta.
  eexists _, rs. split; [done|]. cbn [trace heap appState].
  pose proof (fresh_heap_None w) as Hfresh.
  split_and!; [done | done | apply lookup_insert_eq | done | done |].
  destruct w as [st hp tr]. by apply heapKept_insert.
Qed.

(** X8: when the end index is within the list and the hashing and the
    encoding succeed for each line of the range, [processBatch] returns a
    new array that holds, in the order of the list, one record per line
    from [startIndex] to [endIndex - 1] (none when the range is empty): the
    record of a line carries the line without white space, the URL built
    from it and from its hash, and the image of that URL.  The trace gains
    one hash and one encoding per line, in order; the React state and the
    other arrays are untouched. *)
Theorem processBatch_returns_slice (fc : list jsstring) (pw : jsstring)
    (s e : nat) (w : World) :
  e <= length fc ->
  Forall (fun line => exists tr r, encodeLine pw line = (tr, Ok r)) (slice s e fc) ->
  exists w' records,
    let l := fresh (dom (heap w)) in
    processBatch fc s e pw w = (w', Ok l) /\
    heap w !! l = None /\
    heap w' !! l = Some records /\
    Forall2 (encodes pw) (slice s e fc) records /\
    length records = e - s /\
    (forall i line, slice s e fc !! i = Some line <-> (i < e - s /\ fc !! (s + i) = Some line)) /\
    (forall l', l' <> l -> heap w' !! l' = heap w !! l') /\
    appState w' = appState w /\
    trace w' = trace w ++ recordEvents pw records.
Proof.
  intros He Hlines.
  destruct (encodeLines_succeeds pw _ Hlines) as (records & Henc & Hall).
  rewrite processBatch_any, Henc. cbn zeta.
  rewrite slice_length by done. rewrite Nat.ltb_irrefl.
  eexists _, records. split; [done|]. cbn [heap trace appState].
  split_and!; [apply fresh_heap_None | apply lookup_insert_eq | done | | | | done | done].
  - rewrite <- (Forall2_length _ _ _ Hall). by apply slice_length.
  - intros i line. unfold slice. rewrite lookup_take_Some, lookup_drop. tauto.
  - intros l' Hl'. by rewrite lookup_insert_ne.
Qed.

(** X9: when the range is not empty and ends beyond the list, the hashing
    and the encoding succeeding for the lines there are from [startIndex]
    on, [processBatch] encodes those lines and then throws an instance of
    [Error] of its own (the [TypeError] of a method call on [undefined])
    instead of returning. *)
Theorem processBatch_out_of_range (fc : list jsstring) (pw : jsstring)
    (s e : nat) (w : World) :
  s < e -> length fc < e ->
  Forall (fun line => exists tr r, encodeLine pw line = (tr, Ok r)) (drop s fc) ->
  exists w' message records,
    processBatch fc s e pw w = (w', Throw (ErrorObject message)) /\
    Forall2 (encodes pw) (drop s fc) records /\
    trace w' = trace w ++ recordEvents pw records /\
    heap w' !! fresh (dom (heap w)) = Some records /\
    appState w' = appState w.
Proof.
  intros Hse He Hlines.
  destruct (encodeLines_succeeds pw _ Hlines) as (records & Henc & Hall).
  rewrite processBatch_any. unfold slice.
  rewrite take_ge by (rewrite length_drop; lia). rewrite Henc. cbn zeta.
  assert ((length (drop s fc) <? e - s)%nat = true) as ->.
  { apply Nat.ltb_lt. rewrite length_drop. lia. }
  eexists _, _, records. split; [done|]. cbn [heap trace appState].
  split_and!; [done | done | apply lookup_insert_eq | done].
Qed.

(** ** The state a run leaves *)







(** ** A run all of whose batches complete *)

Lemma qrTexts_app (tr1 tr2 : list event) :
  qrTexts (tr1 ++ tr2) = qrTexts tr1 ++ qrTexts tr2.
Proof. apply omap_app. Qed.

Lemma hashInputs_app (tr1 tr2 : list event) :
  hashInputs (tr1 ++ tr2) = hashInputs tr1 ++ hashInputs tr2.
Proof. apply omap_app. Qed.

Lemma pacing_app (tr1 tr2 : list event) :
  pacing (tr1 ++ tr2) = pacing tr1 ++ pacing tr2.
Proof. apply List.filter_app. Qed.

Lemma recordEvents_calls (pw : jsstring) (rs : list QRCodeData) :
  qrTexts (recordEvents pw rs) = map url rs /\
  hashInputs (recordEvents pw rs) = map (fun r => number r ++ secret pw) rs /\
  pacing (recordEvents pw rs) = [].
Proof.
  induction rs as [|r rs (IH1 & IH2 & IH3)]; [done|].
  unfold recordEvents in *. cbn [flat_map map].
  rewrite qrTexts_app, hashInputs_app, pacing_app, IH1, IH2, IH3. done.
Qed.

Lemma encodes_numbers (pw suffix : jsstring) (lines : list jsstring)
    (rs : list QRCodeData) :
  Forall2 (encodes pw) lines rs ->
  map (fun r => number r ++ suffix) rs
  = map (fun line => removeWhiteSpace line ++ suffix) lines.
Proof.
  induction 1 as [|line r lines rs [Hnum _] _ IH]; [done|].
  cbn [map]. by rewrite Hnum, IH.
Qed.

(** The calls of a batch that completes. *)
Lemma batchTrace_calls (fc : list jsstring) (pw : jsstring) (k : nat) :
  k < ceilDiv (length fc) BATCH_SIZE ->
  (batchOutcome fc pw k).2 = Ok () ->
  exists records content,
    Forall2 (encodes pw) (batchLines fc k) records /\
    qrTexts (batchTrace fc pw k) = map url records /\
    hashInputs (batchTrace fc pw k) = map (fun r => number r ++ secret pw) records /\
    pacing (batchTrace fc pw k)
    = Download (batchZipName (length fc) k) content
      :: (if S k =? ceilDiv (length fc) BATCH_SIZE then [] else [SetTimeout 10000%N]).
Proof.
  intros Hk (records & content & Hall & _ & ->)%batchOutcome_success.
  destruct (recordEvents_calls pw records) as (Hq & Hh & Hp).
  exists records, content.
  rewrite !qrTexts_app, !hashInputs_app, !pacing_app, Hq, Hh, Hp.
  split_and!; [done | | |].
  - destruct (_ <? _)%nat; cbn; by rewrite app_nil_r.
  - destruct (_ <? _)%nat; cbn; by rewrite app_nil_r.
  - cbn [app pacing List.filter isDownload isTimeout orb]. f_equal.
    destruct (Nat.ltb_spec k (ceilDiv (length fc) BATCH_SIZE - 1)),
      (Nat.eqb_spec (S k) (ceilDiv (length fc) BATCH_SIZE)); (done || lia).
Qed.

(** The records of the first [j] batches, when these complete: one per line
    of the batches, in order. *)
Lemma batches_calls (fc : list jsstring) (pw : jsstring) (j : nat) :
  j <= ceilDiv (length fc) BATCH_SIZE ->
  (forall k, k < j -> (batchOutcome fc pw k).2 = Ok ()) ->
  exists records,
    Forall2 (encodes pw) (concat (map (batchLines fc) (seq 0 j))) records /\
    qrTexts (concat (map (batchTrace fc pw) (seq 0 j))) = map url records /\
    hashInputs (concat (map (batchTrace fc pw) (seq 0 j)))
    = map (fun r => number r ++ secret pw) records.
Proof.
  induction j as [|j IH]; intros Hj Hok.
  - exists []. split_and!; [constructor | done | done].
  - destruct IH as (rs & Hall & Hq & Hh); [lia | intros k Hk; apply Hok; lia|].
    destruct (batchTrace_calls fc pw j) as (rs' & _ & Hall' & Hq' & Hh' & _);
      [lia | apply Hok; lia|].
    exists (rs ++ rs'). rewrite seq_S, !map_app, !concat_app. cbn [map concat].
    rewrite Nat.add_0_l, !app_nil_r, qrTexts_app, hashInputs_app, Hq, Hq', Hh, Hh'.
    split_and!; [by apply Forall2_app | done | done].
Qed.


(** X12: the downloads and the timers of a run all of whose batches
    complete: one download per batch, in the order of the batches, under
    the name of the batch's display range, each but the last followed by
    one timer of [BATCH_DELAY] = 10000 milliseconds, so that two downloads
    are always separated by a wait and nothing is waited for after the
    last. *)
Theorem run_is_paced (w : World) :
  let fc := fileContent (appState w) in
  let pw := password (appState w) in
  let n := length fc in
  let m := ceilDiv n BATCH_SIZE in
  fc <> [] -> (version = UserSecret -> pw <> []) ->
  (forall k, k < m -> (batchOutcome fc pw k).2 = Ok ()) ->
  exists contents,
    length contents = m /\
    pacing (trace (generateAndDownloadQRCodes w).1)
    = pacing (trace w)
      ++ concat (zip_with
           (fun k content =>
              Download (batchZipName n k) content
              :: (if S k =? m then [] else [SetTimeout 10000%N]))
           (seq 0 m) contents).
Proof.
  intros fc pw n m Hfc Hpw Hok.
  destruct (generateAndDownloadQRCodes_complete w Hfc Hpw Hok)
    as (w' & -> & Htr & _).
  cbn [fst]. rewrite Htr, pacing_app. fold fc pw n m.
  assert (forall j k0, k0 + j <= m ->
    exists contents, length contents = j /\
      pacing (concat (map (batchTrace fc pw) (seq k0 j)))
      = concat (zip_with
           (fun k content =>
              Download (batchZipName n k) content
              :: (if S k =? m then [] else [SetTimeout 10000%N]))
           (seq k0 j) contents)) as Hall.
  { induction j as [|j IH]; intros k0 Hk0; [by exists []|].
    destruct (IH (S k0)) as (contents & Hlen & Heq); [lia|].
    destruct (batchTrace_calls fc pw k0) as (_ & content & _ & _ & _ & Hp);
      [change (k0 < m); lia | apply Hok; lia|].
    exists (content :: contents). split; [by cbn [length]; rewrite Hlen|].
    cbn [seq map concat zip_with]. by rewrite pacing_app, Heq, Hp. }
  destruct (Hall m 0) as (contents & Hlen & Heq); [lia|].
  exists contents. by rewrite Heq.
Qed.

(** X13: loading a file whose lines are all valid and then running the
    generation, every batch of the run completing, asks the QR library for
    one image per line kept of the file, in the order of the file and
    across the batches: the text encoded for a line is the URL built from
    the line without white space and from the digest the hashing library
    returned for that identifier followed by the secret.  Nothing else is
    encoded. *)
Theorem upload_then_generate_encodes_every_line (text : jsstring) (w : World) :
  let pw := password (appState w) in
  let w1 := (handleFileUpload (Some (Ok text)) w).1 in
  let w2 := (generateAndDownloadQRCodes w1).1 in
  Forall validLine (fileLines text) -> fileLines text <> [] ->
  (version = UserSecret -> pw <> []) ->
  (forall k, k < ceilDiv (length (fileLines text)) BATCH_SIZE ->
     (batchOutcome (fileLines text) pw k).2 = Ok ()) ->
  fileContent (appState w1) = fileLines text /\
  exists texts,
    qrTexts (trace w2) = qrTexts (trace w) ++ texts /\
    Forall2 (fun line t =>
               exists hash,
                 SHA256 (removeWhiteSpace line ++ secret pw) = Ok hash /\
                 t = lit "https://check.vant.plus/" ++ removeWhiteSpace line
                     ++ lit "-" ++ hash)
      (fileLines text) texts.
Proof.
  intros pw w1 w2 Hvalid Hlines Hpw Hok. subst w1 w2.
  rewrite handleFileUpload_cases.
  rewrite (proj2 (firstInvalid_None _) Hvalid). cbn [fst]. split; [done|].
  match goal with
  | |- context [generateAndDownloadQRCodes ?w1] =>
      destruct (generateAndDownloadQRCodes_complete w1) as (w2 & -> & Htr & _);
        [done | done | done |]
  end.
  cbn [fst]. rewrite Htr. cbn [trace appState fileContent password].
  destruct (batches_calls (fileLines text) pw _ (le_n _) Hok)
    as (records & Hall & Hq & _).
  rewrite batchLines_partition in Hall.
  exists (map url records). fold pw. rewrite qrTexts_app, Hq. split; [done|].
  apply Forall2_fmap_r. eapply Forall2_impl; [exact Hall|].
  intros line r (Hnum & hash & Hhash & Hurl & _). exists hash.
  unfold generateHash in Hhash. rewrite Hnum in Hhash, Hurl. done.
Qed.

(** X14: in the version with a password field, typing a password and then
    running the generation, every batch of the run completing, hashes, for
    each stored line in order, the identifier of the line followed by the
    password just typed, whatever password the state held before; the state
    keeps the typed password. *)
Theorem typed_password_is_hashed (value : jsstring) (w : World) :
  let fc := fileContent (appState w) in
  version = UserSecret -> value <> [] -> fc <> [] ->
  (forall k, k < ceilDiv (length fc) BATCH_SIZE ->
     (batchOutcome fc value k).2 = Ok ()) ->
  let w' := handleAll [TypePassword value; Generate] w in
  hashInputs (trace w')
  = hashInputs (trace w) ++ map (fun line => removeWhiteSpace line ++ value) fc /\
  password (appState w') = value /\
  fileContent (appState w') = fc.
Proof.
  intros fc Hv Hvalue Hfc Hok. cbn [handleAll handle].
  set (wp := (setPassword value w).1).
  destruct (generateAndDownloadQRCodes_complete wp)
    as (w' & -> & Htr & _ & _ & [Hfile Hpass] & _); [done | done | done |].
  cbn [fst]. rewrite Htr, Hfile, Hpass.
  change (fileContent (appState wp)) with fc.
  change (password (appState wp)) with value.
  split_and!; [|done|done].
  destruct (batches_calls fc value _ (le_n _) Hok) as (records & Hall & _ & Hh).
  rewrite batchLines_partition in Hall. rewrite hashInputs_app, Hh. f_equal.
  unfold secret. rewrite Hv. by apply (encodes_numbers value).
Qed.

(** ** Names and URLs *)

Lemma lit_cons (a : ascii) (s : string) : lit (String a s) = N_of_ascii a :: lit s.
Proof. done. Qed.

Lemma lit_inj (s1 s2 : string) : lit s1 = lit s2 -> s1 = s2.
Proof.
  revert s2. induction s1 as [|a s1 IH]; intros [|b s2]; rewrite ?lit_cons; try done.
  intros [= Hab Hs]. f_equal; [|by apply IH].
  by rewrite <- (ascii_N_embedding a), <- (ascii_N_embedding b), Hab.
Qed.

Lemma to_uint_nonnil (n : nat) : Nat.to_uint n <> Decimal.Nil.
Proof.
  rewrite <- (Unsigned.of_to n) at 1. rewrite Unsigned.to_of.
  apply DecimalFacts.unorm_nonnil.
Qed.

Lemma showNat_inj (n1 n2 : nat) : showNat n1 = showNat n2 -> n1 = n2.
Proof.
  unfold showNat. intros Heq%lit_inj%(f_equal NilZero.uint_of_string).
  rewrite !NilZero.usu in Heq by apply to_uint_nonnil.
  injection Heq as Heq. by apply Unsigned.to_uint_inj.
Qed.

Lemma string_of_uint_digits (d : Decimal.uint) :
  forallb isDigit (lit (NilEmpty.string_of_uint d)) = true.
Proof.
  induction d as [|d IH|d IH|d IH|d IH|d IH|d IH|d IH|d IH|d IH|d IH];
    simpl NilEmpty.string_of_uint; rewrite ?lit_cons; try done;
    cbn [forallb]; by rewrite IH.
Qed.

Lemma showNat_digits (n : nat) : forallb isDigit (showNat n) = true.
Proof.
  unfold showNat, NilZero.string_of_uint.
  destruct (Nat.to_uint n); try done; apply string_of_uint_digits.
Qed.

Lemma forallb_isDigit_not_elem (c : N) (s : jsstring) :
  isDigit c = false -> forallb isDigit s = true -> c ∉ s.
Proof.
  intros Hc Hs Hin. apply forallb_forall with (x := c) in Hs; [congruence|].
  by apply list_elem_of_In.
Qed.

Lemma allDigits_forallb (s : jsstring) :
  allDigits s = true -> forallb isDigit s = true.
Proof. by destruct s. Qed.

(** A string is cut in one way only at the first occurrence of [c]. *)
Lemma app_cons_inj (c : N) (n1 n2 h1 h2 : jsstring) :
  c ∉ n1 -> c ∉ n2 -> n1 ++ c :: h1 = n2 ++ c :: h2 -> n1 = n2 /\ h1 = h2.
Proof.
  revert n2. induction n1 as [|x n1 IH]; intros [|y n2] H1 H2; cbn [app].
  - by intros [= ->].
  - intros [= <- _]. exfalso. apply H2, list_elem_of_here.
  - intros [= -> _]. exfalso. apply H1, list_elem_of_here.
  - intros [= -> Heq]. apply not_elem_of_cons in H1 as [_ H1].
    apply not_elem_of_cons in H2 as [_ H2].
    destruct (IH n2 H1 H2 Heq) as [-> ->]. done.
Qed.

(** X15: the text of a QR code determines the identifier and the hash it
    was built from: two URLs built from identifiers made of digits are
    equal only when the identifiers are equal and the hashes are equal. *)
Theorem urlOf_unambiguous (number1 hash1 number2 hash2 : jsstring) :
  allDigits number1 = true -> allDigits number2 = true ->
  urlOf number1 hash1 = urlOf number2 hash2 ->
  number1 = number2 /\ hash1 = hash2.
Proof.
  intros H1%allDigits_forallb H2%allDigits_forallb. unfold urlOf.
  intros Heq%app_inv_head. change (lit "-") with [45%N] in Heq.
  by apply (app_cons_inj 45); [apply forallb_isDigit_not_elem.. |].
Qed.

Lemma folderNameOf_inj (s1 e1 s2 e2 : nat) :
  folderNameOf s1 e1 = folderNameOf s2 e2 -> s1 = s2 /\ e1 = e2.
Proof.
  unfold folderNameOf. intros Heq%app_inv_head.
  change (lit " - ") with ([32%N] ++ [45%N; 32%N]) in Heq.
  rewrite <- !app_assoc in Heq. cbn [app] in Heq.
  apply (app_cons_inj 32) in Heq as [Hs He];
    [| by apply forallb_isDigit_not_elem, showNat_digits ..].
  injection He as He. split; by apply showNat_inj.
Qed.

(** X16: names tell their origin.  The folder name of a batch determines
    its display range, two batches of a run are never downloaded under the
    same archive name, and two identifiers never share an image name. *)
Theorem names_are_distinct :
  (forall s1 e1 s2 e2,
     folderNameOf s1 e1 = folderNameOf s2 e2 -> s1 = s2 /\ e1 = e2) /\
  (forall n k1 k2, batchZipName n k1 = batchZipName n k2 -> k1 = k2) /\
  (forall number1 number2,
     imageName number1 = imageName number2 -> number1 = number2).
Proof.
  split_and!.
  - apply folderNameOf_inj.
  - intros n k1 k2. unfold batchZipName.
    intros [Hs _]%app_inv_tail%folderNameOf_inj.
    unfold displayRange, batchBounds in Hs. cbn [fst] in Hs.
    pose proof BATCH_SIZE_pos. nia.
  - apply imageName_inj.
Qed.

(** ** The archive in numeric order *)

Lemma zipSet_fresh (p : jsstring) (e : zipEntry) (a : archive) :
  p ∉ a.*1 -> zipSet p e a = a ++ [(p, e)].
Proof.
  induction a as [|[p0 e0] a IH]; cbn [zipSet fmap list_fmap fst app]; [done|].
  intros [Hne Hnot]%not_elem_of_cons.
  rewrite decide_False by done. by rewrite IH.
Qed.

(** With one record per identifier, every image is appended to the table. *)
Lemma fold_addImage_NoDup (folder : jsstring) (rs : list QRCodeData) :
  NoDup (map number rs) ->
  fold_left (addImage folder) rs [] = map (imageEntry folder) rs.
Proof.
  induction rs as [|x rs IH] using rev_ind; [done|].
  rewrite map_app. intros [Hnd [Hx _]]%NoDup_app.
  rewrite fold_left_app, map_app. cbn [fold_left map].
  rewrite addImage_eq, IH by done. apply zipSet_fresh.
  intros (entry & Hp & (r & -> & Hr)%list_elem_of_fmap)%list_elem_of_fmap.
  cbn [imageEntry fst] in Hp. apply imagePath_inj in Hp.
  apply (Hx (number r)); [by apply list_elem_of_fmap_2|].
  rewrite <- Hp. apply list_elem_of_here.
Qed.

(** X17: for a batch with one record per identifier, the identifiers being
    strings of digits of value below [2^53], [downloadBatch] leaves the
    caller's array sorted in ascending numeric order of the identifiers
    (records of equal value, such as [7] and [007], in their former order),
    and the archive it hands to [generateAsync] holds the folder and then
    the images of the records in that same order, one per record. *)
Theorem downloadBatch_numeric_order (l bn start end_ : nat)
    (qrCodes : list QRCodeData) (w : World) :
  heap w !! l = Some qrCodes ->
  Forall (fun r => allDigits (number r) = true /\
                   (decimalValue (number r) < 2 ^ 53)%Z) qrCodes ->
  NoDup (map number qrCodes) ->
  let folder := folderNameOf start end_ ++ [47%N] in
  exists sorted,
    sorted ≡ₚ qrCodes /\
    StronglySorted
      (fun a b => decimalValue (number a) <= decimalValue (number b))%Z sorted /\
    (forall k,
       List.filter (fun r => decimalValue (number r) =? k)%Z sorted
       = List.filter (fun r => decimalValue (number r) =? k)%Z qrCodes) /\
    heap (downloadBatch l bn start end_ w).1 !! l = Some sorted /\
    archiveOf start end_ qrCodes
    = (folder, ZipFolder) :: map (imageEntry folder) sorted /\
    trace (downloadBatch l bn start end_ w).1
    = trace w ++ CallGenerateAsync (archiveOf start end_ qrCodes) ::
        match generateAsync (archiveOf start end_ qrCodes) with
        | Ok content => [Download (folderNameOf start end_ ++ lit ".zip") content]
        | Throw _ => []
        end.
Proof.
  intros Hl Hsmall Hnd folder.
  destruct (arraySort_numeric_below_2_53 qrCodes Hsmall) as (Hperm & Hsorted & Hstable).
  exists (arraySort compareByNumber qrCodes).
  destruct (downloadBatch_trace l bn start end_ qrCodes w Hl) as [_ Htr].
  split_and!; [done | done | done | | | done].
  - rewrite (downloadBatch_spec _ _ _ _ _ _ Hl). cbn [fst heap].
    apply lookup_insert_eq.
  - rewrite archiveOf_eq. fold folder. f_equal. apply fold_addImage_NoDup.
    by rewrite Hperm.
Qed.

(** ** From the lines of the file to the identifiers *)

Lemma removeWhiteSpace_app (s t : jsstring) :
  removeWhiteSpace (s ++ t) = removeWhiteSpace s ++ removeWhiteSpace t.
Proof. apply List.filter_app. Qed.

Lemma removeWhiteSpace_rev (s : jsstring) :
  removeWhiteSpace (rev s) = rev (removeWhiteSpace s).
Proof.
  induction s as [|c s IH]; [done|]. cbn [rev].
  rewrite removeWhiteSpace_app, IH. unfold removeWhiteSpace at 2 3.
  cbn [List.filter]. destruct (isWhiteSpace c); cbn [negb rev app]; [|done].
  by rewrite app_nil_r.
Qed.

Lemma removeWhiteSpace_trimStart (s : jsstring) :
  removeWhiteSpace (trimStart s) = removeWhiteSpace s.
Proof.
  induction s as [|c s IH]; [done|]. cbn [trimStart].
  destruct (isWhiteSpace c) eqn:E; [|done].
  rewrite IH. unfold removeWhiteSpace. cbn [List.filter]. by rewrite E.
Qed.

Lemma removeWhiteSpace_trim (s : jsstring) :
  removeWhiteSpace (trim s) = removeWhiteSpace s.
Proof.
  unfold trim, trimEnd.
  rewrite removeWhiteSpace_rev, removeWhiteSpace_trimStart, removeWhiteSpace_rev.
  by rewrite rev_involutive, removeWhiteSpace_trimStart.
Qed.

Lemma removeWhiteSpace_nil (s : jsstring) :
  removeWhiteSpace s = [] -> Forall (fun c => isWhiteSpace c = true) s.
Proof.
  induction s as [|c s IH]; [constructor|]. unfold removeWhiteSpace.
  cbn [List.filter]. destruct (isWhiteSpace c) eqn:E; [|done].
  intros H. constructor; [done | by apply IH].
Qed.

Lemma trim_nil_iff (s : jsstring) : trim s = [] <-> removeWhiteSpace s = [].
Proof.
  split.
  - intros H. by rewrite <- removeWhiteSpace_trim, H.
  - intros H. by apply trim_blank, removeWhiteSpace_nil.
Qed.

(** X18: the identifiers a loaded file stands for are the pieces of the text
    between line feeds with every white space removed, the pieces made of
    white space only being skipped: trimming a line before it is stored
    changes no identifier. *)
Theorem fileLines_identifiers (text : jsstring) :
  map removeWhiteSpace (fileLines text)
  = List.filter (fun number => negb (length number =? 0)%nat)
      (map removeWhiteSpace (splitLines text)).
Proof.
  unfold fileLines. induction (splitLines text) as [|l ls IH]; [done|].
  cbn [map List.filter]. destruct (trim l) as [|c r] eqn:E.
  - apply trim_nil_iff in E. rewrite E. done.
  - cbn [length Nat.eqb negb map]. rewrite <- E, removeWhiteSpace_trim, IH.
    destruct (removeWhiteSpace l) as [|c' r'] eqn:E'; [|done].
    apply trim_nil_iff in E'. congruence.
Qed.

Lemma removeWhiteSpace_digits (s : jsstring) :
  forallb isDigit s = true -> removeWhiteSpace s = s.
Proof.
  induction s as [|c s IH]; [done|]. cbn [forallb].
  intros [Hc Hs]%andb_true_iff. unfold removeWhiteSpace. cbn [List.filter].
  rewrite (isDigit_not_space c Hc). cbn [negb]. f_equal. by apply IH.
Qed.

Lemma trim_digits (s : jsstring) : forallb isDigit s = true -> trim s = s.
Proof.
  intros Hs. unfold trim, trimEnd.
  assert (forall t, forallb isDigit t = true -> trimStart t = t) as Hfix.
  { intros [|c t]; [done|]. cbn [forallb]. intros [Hc _]%andb_true_iff.
    apply trimStart_fixed. by apply isDigit_not_space. }
  rewrite (Hfix s Hs), Hfix; [apply rev_involutive|].
  apply forallb_forall. intros x Hx%in_rev.
  by apply (proj1 (forallb_forall _ _) Hs).
Qed.

(** X19: a file written with one identifier per line loads as written.  For
    identifiers made of digits, joined by line feeds or by carriage return
    and line feed, with or without a newline after the last, the upload
    stores exactly the list of the identifiers, in order, clears the error
    and reports their number; each stored line is its own identifier. *)
Theorem upload_of_digit_lines (numbers : list jsstring) (w : World) :
  Forall (fun number => allDigits number = true) numbers ->
  Forall (fun text =>
            let w' := (handleFileUpload (Some (Ok text)) w).1 in
            fileContent (appState w') = numbers /\
            error (appState w') = [] /\
            debugInfo (appState w') = loadedMessage (length numbers))
    [joinWith [10%N] numbers; joinWith [13%N; 10%N] numbers;
     joinWith [10%N] (numbers ++ [[]]); joinWith [13%N; 10%N] (numbers ++ [[]])] /\
  map removeWhiteSpace numbers = numbers.
Proof.
  intros Hdigits.
  assert (Forall (fun number => forallb isDigit number = true) numbers) as Hall.
  { eapply Forall_impl; [exact Hdigits|]. apply allDigits_forallb. }
  assert (map trim numbers = numbers) as Htrim.
  { clear Hdigits. induction Hall as [|d ds Hd _ IH]; [done|].
    cbn [map]. by rewrite trim_digits, IH. }
  assert (map removeWhiteSpace numbers = numbers) as Hnum.
  { clear Hdigits Htrim. induction Hall as [|d ds Hd _ IH]; [done|].
    cbn [map]. by rewrite removeWhiteSpace_digits, IH. }
  assert (List.filter (fun line => negb (length line =? 0)%nat) numbers = numbers)
    as Hkeep.
  { clear Hall Htrim Hnum. induction Hdigits as [|d ds Hd _ IH]; [done|].
    cbn [List.filter]. destruct d; [done|]. cbn. by rewrite IH. }
  assert (Forall (fun l : jsstring => 10%N ∉ l) numbers) as HnoLF.
  { eapply Forall_impl; [exact Hall|]. intros d Hd.
    by apply forallb_isDigit_not_elem. }
  assert (Forall (fun l : jsstring => 10%N ∉ l) (numbers ++ [[]])) as HnoLF'.
  { apply Forall_app. split; [done|]. constructor; [apply not_elem_of_nil | done]. }
  assert (forall ls, Forall (fun l : jsstring => 10%N ∉ l) ls ->
            fileLines (joinWith [10%N] ls)
            = List.filter (fun line => negb (length line =? 0)%nat) (map trim ls) /\
            fileLines (joinWith [13%N; 10%N] ls)
            = List.filter (fun line => negb (length line =? 0)%nat) (map trim ls))
    as Hjoin.
  { intros ls Hls. destruct ls as [|l ls]; [done|]. unfold fileLines.
    by rewrite splitLines_joinLF, map_trim_splitLines_joinCRLF. }
  assert (List.filter (fun line => negb (length line =? 0)%nat)
            (map trim (numbers ++ [[]])) = numbers) as Hkeep'.
  { rewrite map_app, List.filter_app, Htrim, Hkeep. cbn. apply app_nil_r. }
  assert (forall text, fileLines text = numbers ->
            let w' := (handleFileUpload (Some (Ok text)) w).1 in
            fileContent (appState w') = numbers /\
            error (appState w') = [] /\
            debugInfo (appState w') = loadedMessage (length numbers)) as Hload.
  { intros text Hlines. cbn zeta. rewrite handleFileUpload_cases, Hlines.
    assert (firstInvalid numbers = None) as ->; [|done].
    apply firstInvalid_None. eapply Forall_impl; [exact Hdigits|].
    intros d Hd. unfold validLine.
    by rewrite removeWhiteSpace_digits by (by apply allDigits_forallb). }
  split; [|done].
  destruct (Hjoin numbers HnoLF) as [H1 H2].
  destruct (Hjoin (numbers ++ [[]]) HnoLF') as [H3 H4].
  rewrite Htrim, Hkeep in H1, H2. rewrite Hkeep' in H3, H4.
  repeat (constructor; [by apply Hload|]). constructor.
Qed.

End App.


(** * Concrete runs *)

(** C3, counterexample: whatever function stands for SHA-256, the digest is
    not one-to-one on pairs: identifier [1] with secret [23] and identifier
    [12] with secret [3] are hashed from the same string [123]. *)
Lemma generateHash_not_injective :
  ~ exists SHA256 : jsstring -> result jsstring,
      forall id1 s1 id2 s2 : jsstring,
        generateHash UserSecret SHA256 id1 s1 = generateHash UserSecret SHA256 id2 s2 ->
        id1 = id2 /\ s1 = s2.
Proof.
  intros [SHA256 Hinj].
  destruct (Hinj (lit "1") (lit "23") (lit "12") (lit "3")) as [Hid _].
  - reflexivity.
  - vm_compute in Hid. discriminate Hid.
Qed.

(** The two pairs of the counterexample have the same concatenation, and so
    the same digest. *)
Lemma generateHash_concat_witness :
  generateHash UserSecret toySHA256 (lit "1") (lit "23")
  = generateHash UserSecret toySHA256 (lit "12") (lit "3").
Proof.
  apply (generateHash_concat UserSecret toySHA256 (lit "1") (lit "23") (lit "12") (lit "3")).
  reflexivity.
Defined.

(** C2, counterexample: the line [1 2] passes the validation, and the
    stored list holds it with its space, not the identifier [12]. *)
Lemma handleFileUpload_keeps_inner_space :
  Forall validLine (fileLines (lit "1 2")) /\
  fileContent (appState (handleFileUpload (Some (Ok (lit "1 2"))) initialWorld).1)
    = [lit "1 2"] /\
  map removeWhiteSpace (fileLines (lit "1 2")) = [lit "12"] /\
  fileContent (appState (handleFileUpload (Some (Ok (lit "1 2"))) initialWorld).1)
    <> map removeWhiteSpace (fileLines (lit "1 2")).
Proof.
  split_and!.
  - repeat constructor.
  - vm_compute. reflexivity.
  - vm_compute. reflexivity.
  - vm_compute. discriminate.
Qed.

(** Scenario A is accepted. *)
Lemma handleFileUpload_accepts_witness :
  exists w',
    handleFileUpload (Some (Ok scenarioA)) initialWorld = (w', Ok ()) /\
    fileContent (appState w') = fileLines scenarioA /\
    error (appState w') = [] /\
    debugInfo (appState w') = loadedMessage (length (fileLines scenarioA)) /\
    password (appState w') = password (appState initialWorld) /\
    heap w' = heap initialWorld /\ trace w' = trace initialWorld /\
    forall pw line tr r,
      line ∈ fileContent (appState w') ->
      encodeLine FixedSecret toySHA256 toyToDataURL pw line = (tr, Ok r) ->
      number r = removeWhiteSpace line /\ allDigits (number r) = true.
Proof.
  apply (handleFileUpload_accepts FixedSecret toySHA256 toyToDataURL scenarioA
           initialWorld).
  repeat constructor.
Defined.

(** Scenario C is rejected: its second line holds the letter [a]. *)
Lemma handleFileUpload_rejects_witness :
  exists before bad after w',
    fileLines scenarioC = before ++ bad :: after /\
    Forall validLine before /\
    (exists c, c ∈ removeWhiteSpace bad /\ isDigit c = false) /\
    handleFileUpload (Some (Ok scenarioC)) initialWorld = (w', Ok ()) /\
    error (appState w')
    = lit "Linha cont" ++ [233%N] ++ lit "m caracteres inv" ++ [225%N]
      ++ lit "lidos: " ++ [34%N] ++ bad ++ [34%N] /\
    error (appState w') <> [] /\
    errorBox (render (appState w')) = Some (error (appState w')) /\
    fileContent (appState w') = [] /\
    heap w' = heap initialWorld /\ trace w' = trace initialWorld.
Proof.
  apply (handleFileUpload_rejects scenarioC initialWorld).
  apply Exists_cons_tl, Exists_cons_hd. exists 97%N. split.
  - vm_compute. apply list_elem_of_further, list_elem_of_further, list_elem_of_here.
  - reflexivity.
Defined.

(** Scenarios A and C, evaluated. *)
Example scenarioA_loaded :
  fileContent (appState (handleFileUpload (Some (Ok scenarioA)) initialWorld).1)
  = [lit "1"; lit "2"; lit "3"].
Proof. vm_compute. reflexivity. Qed.

Example scenarioC_rejected :
  error (appState (handleFileUpload (Some (Ok scenarioC)) initialWorld).1)
  = invalidLineMessage (lit "12a3") /\
  fileContent (appState (handleFileUpload (Some (Ok scenarioC)) initialWorld).1) = [].
Proof. split; vm_compute; reflexivity. Qed.

(** 2001 lines, generated with the built-in secret: two batches, of 2000
    lines and of one. *)
Lemma run_partitions_into_batches_witness :
  let w := loadedWorld manyLines [] in
  let fc := fileContent (appState w) in
  let pw := password (appState w) in
  let n := length fc in
  let m := ceilDiv n BATCH_SIZE in
  exists w',
    generateAndDownloadQRCodes FixedSecret toySHA256 toyToDataURL toyGenerateAsync w
      = (w', Ok ()) /\
    trace w' = trace w ++ concat (map (batchTrace FixedSecret toySHA256 toyToDataURL
                                         toyGenerateAsync fc pw) (seq 0 m)) /\
    (forall k, k < m ->
       exists records content,
         Forall2 (encodes FixedSecret toySHA256 toyToDataURL pw)
           (batchLines fc k) records /\
         batchTrace FixedSecret toySHA256 toyToDataURL toyGenerateAsync fc pw k
         = recordEvents FixedSecret pw records
           ++ [CallGenerateAsync (archiveOf FixedSecret (displayRange n k).1
                                    (displayRange n k).2 records);
               Download (lit "QR Codes " ++ showNat (displayRange n k).1
                         ++ lit " - " ++ showNat (displayRange n k).2
                         ++ lit ".zip") content]
           ++ (if S k =? m then [] else [SetTimeout 10000%N])) /\
    m = (n + 1999) / 2000 /\
    (forall k, batchLines fc k = slice (k * 2000) (Nat.min ((k + 1) * 2000) n) fc) /\
    concat (map (batchLines fc) (seq 0 m)) = fc /\
    (forall i, i < n -> exists k, k < m /\
       k * 2000 <= i < Nat.min ((k + 1) * 2000) n /\
       forall k', k' * 2000 <= i < Nat.min ((k' + 1) * 2000) n -> k' = k) /\
    (forall k, displayRange n k = (k * 2000 + 1, Nat.min ((k + 1) * 2000) n)) /\
    (displayRange n 0).1 = 1 /\
    (displayRange n (m - 1)).2 = n /\
    (forall k, S k < m -> (displayRange n (S k)).1 = (displayRange n k).2 + 1) /\
    (forall k, k < m -> (displayRange n k).1 <= (displayRange n k).2) /\
    error (appState w') = [] /\ sameInputs w w'.
Proof.
  apply (run_partitions_into_batches FixedSecret toySHA256 toyToDataURL
           toyGenerateAsync (loadedWorld manyLines [])).
  - vm_compute. lia.
  - intros Hv. discriminate Hv.
  - intros [|[|k]] Hk; [vm_compute; reflexivity | vm_compute; reflexivity |].
    exfalso. revert Hk. vm_compute. lia.
Defined.

(** Scenario A, evaluated: the trace of the run. *)
Example scenarioA_run :
  downloads (trace (generateAndDownloadQRCodes FixedSecret toySHA256 toyToDataURL
                      toyGenerateAsync (loadedWorld (fileLines scenarioA) [])).1)
  = [Download (lit "QR Codes 1 - 3.zip")
       (toyBlob (archiveOf FixedSecret 1 3
                   (map (recordFor FixedSecret toyDigest toyImage [])
                      [lit "1"; lit "2"; lit "3"])))].
Proof. vm_compute. reflexivity. Qed.

(** Scenario D of the specification: nothing loaded. *)
Lemma generate_rejects_missing_precondition_witness :
  exists w',
    generateAndDownloadQRCodes FixedSecret toySHA256 toyToDataURL toyGenerateAsync
      initialWorld = (w', Ok ()) /\
    trace w' = trace initialWorld /\ heap w' = heap initialWorld /\
    error (appState w') =
      (if bool_decide (FixedSecret = UserSecret /\ password (appState initialWorld) = [])
       then noPasswordMessage else noFileMessage) /\
    error (appState w') <> [] /\
    debugInfo (appState w') = debugInfo (appState initialWorld) /\
    fileContent (appState w') = fileContent (appState initialWorld) /\
    password (appState w') = password (appState initialWorld) /\
    isProcessing (appState w') = isProcessing (appState initialWorld) /\
    currentBatch (appState w') = currentBatch (appState initialWorld).
Proof.
  apply (generate_rejects_missing_precondition FixedSecret toySHA256 toyToDataURL
           toyGenerateAsync initialWorld).
  left. reflexivity.
Defined.

(** An empty password in [part_000], with a file loaded. *)
Example empty_password_rejected :
  let w := loadedWorld [lit "1"] [] in
  let w' := (generateAndDownloadQRCodes UserSecret toySHA256 toyToDataURL
               toyGenerateAsync w).1 in
  error (appState w') = noPasswordMessage /\ trace w' = [].
Proof. split; vm_compute; reflexivity. Qed.

(** 2001 lines of which the last is too long to be encoded: the first batch
    is downloaded and the second fails. *)
Lemma run_aborts_on_first_failure_witness :
  let w := loadedWorld overlongLast [] in
  let e := ErrorObject (lit "The amount of data is too big to be stored in a QR Code") in
  let fc := fileContent (appState w) in
  let pw := password (appState w) in
  let n := length fc in
  exists w' contents,
    generateAndDownloadQRCodes FixedSecret toySHA256 cappedToDataURL
      toyGenerateAsync w = (w', Ok ()) /\
    trace w' = trace w
      ++ concat (map (batchTrace FixedSecret toySHA256 cappedToDataURL
                        toyGenerateAsync fc pw) (seq 0 1))
      ++ batchTrace FixedSecret toySHA256 cappedToDataURL toyGenerateAsync fc pw 1
      ++ [ConsoleError e] /\
    length contents = 1 /\
    downloads (trace w') = downloads (trace w)
      ++ zip_with Download (map (batchZipName n) (seq 0 1)) contents /\
    error (appState w') = lit "Erro ao gerar ou baixar QR codes" /\
    error (appState w') <> [] /\
    errorBox (render (appState w')) = Some (lit "Erro ao gerar ou baixar QR codes") /\
    isProcessing (appState w') = false /\
    sameInputs w w' /\ heapKept w w'.
Proof.
  apply (run_aborts_on_first_failure FixedSecret toySHA256 cappedToDataURL
           toyGenerateAsync (loadedWorld overlongLast []) 1).
  - vm_compute. discriminate.
  - intros Hv. discriminate Hv.
  - vm_compute. lia.
  - intros [|k] Hk; [vm_compute; reflexivity | lia].
  - vm_compute. reflexivity.
Defined.

(** The same run, evaluated: the first batch is downloaded and waited for,
    the second has no download, the exception is logged last and the error
    box shows the fixed message. *)
Example overlongLast_run :
  let w' := (generateAndDownloadQRCodes FixedSecret toySHA256 cappedToDataURL
               toyGenerateAsync (loadedWorld overlongLast [])).1 in
  map eventName (pacing (trace w'))
  = [lit "QR Codes 1 - 2000.zip"; lit "timer"] /\
  last (trace w')
  = Some (ConsoleError
            (ErrorObject (lit "The amount of data is too big to be stored in a QR Code"))) /\
  errorBox (render (appState w')) = Some (lit "Erro ao gerar ou baixar QR codes").
Proof. split_and!; vm_compute; reflexivity. Qed.

(** A run over two lines whose first encoding is rejected, evaluated: one
    hash, one rejected encoding, the log. *)
Example rejected_run_trace :
  trace (generateAndDownloadQRCodes FixedSecret toySHA256 rejectingToDataURL
           toyGenerateAsync (loadedWorld [lit "1"; lit "2"] [])).1
  = [CallSHA256 (lit "1VAPWHV");
     CallToDataURL (lit "https://check.vant.plus/1-VHWPAV1");
     ConsoleError
       (ErrorObject (lit "The amount of data is too big to be stored in a QR Code"))].
Proof. vm_compute. reflexivity. Qed.

(** Scenario B of the specification: 2500 identifiers make two batches, with
    display ranges 1 - 2000 and 2001 - 2500. *)
Example scenarioB_ranges :
  ceilDiv 2500 BATCH_SIZE = 2 /\
  displayRange 2500 0 = (1, 2000) /\ displayRange 2500 1 = (2001, 2500) /\
  batchZipName 2500 1 = lit "QR Codes 2001 - 2500.zip".
Proof. split_and!; vm_compute; reflexivity. Qed.

(** C6, counterexample: in [part_000] the image of identifier [7] is stored
    as [qrcode_7.png]; the archive has no file named after the identifier
    and the extension alone. *)
Lemma downloadBatch_image_name_part_000 :
  let w := worldWithArray [recordOf (lit "7") (lit "AAAA")] in
  trace (downloadBatch UserSecret toyGenerateAsync 0 1 1 1 w).1
    = [CallGenerateAsync
         [(lit "QR Codes 1 - 1/", ZipFolder);
          (lit "QR Codes 1 - 1/qrcode_7.png", ZipFile (lit "AAAA") true)];
       Download (lit "QR Codes 1 - 1.zip")
         (lit "QR Codes 1 - 1/QR Codes 1 - 1/qrcode_7.png")] /\
  lit "QR Codes 1 - 1/7.png"
    ∉ (archiveOf UserSecret 1 1 [recordOf (lit "7") (lit "AAAA")]).*1.
Proof.
  split.
  - vm_compute. reflexivity.
  - apply (bool_decide_eq_false_1 _). vm_compute. reflexivity.
Qed.

(** Two records of one batch, in [App.tsx]. *)
Lemma downloadBatch_archive_witness :
  let qrCodes := [recordOf (lit "10") (lit "AAAA"); recordOf (lit "9") (lit "BBBB")] in
  let w := worldWithArray qrCodes in
  let folder := lit "QR Codes " ++ showNat 1 ++ lit " - " ++ showNat 2 ++ [47%N] in
  let fileName r := number r ++ lit ".png" in
  let content r :=
    ZipFile (replacePrefix (lit "data:image/png;base64,") (qrDataUrl r)) true in
  exists zip,
    trace (downloadBatch FixedSecret toyGenerateAsync 0 1 1 2 w).1
      = trace w ++ CallGenerateAsync zip ::
          match toyGenerateAsync zip with
          | Ok blob => [Download (folderNameOf 1 2 ++ lit ".zip") blob]
          | Throw _ => []
          end /\
    zipFolders zip = [(folder, ZipFolder)] /\
    (forall r, r ∈ qrCodes ->
       (folder ++ fileName r, content r) ∈ zip /\
       forall e, (folder ++ fileName r, e) ∈ zip -> e = content r) /\
    (forall entry, entry ∈ zipFiles zip ->
       exists r, r ∈ qrCodes /\ entry = (folder ++ fileName r, content r)) /\
    length (zipFiles zip) <= length qrCodes.
Proof.
  apply (downloadBatch_archive FixedSecret toyGenerateAsync 0 1 1 2
           [recordOf (lit "10") (lit "AAAA"); recordOf (lit "9") (lit "BBBB")]
           (worldWithArray
              [recordOf (lit "10") (lit "AAAA"); recordOf (lit "9") (lit "BBBB")])).
  - reflexivity.
  - repeat constructor.
  - intros r1 r2 H1 H2 Hnum.
    apply elem_of_cons in H1 as [-> | H1];
      [|apply list_elem_of_singleton in H1 as ->];
      (apply elem_of_cons in H2 as [-> | H2];
        [|apply list_elem_of_singleton in H2 as ->]);
      first [reflexivity | discriminate Hnum].
Defined.

(** The same batch, evaluated: the images are inserted in numeric order. *)
Example archive_of_two :
  archiveOf FixedSecret 1 2
    [recordOf (lit "10") (lit "AAAA"); recordOf (lit "9") (lit "BBBB")]
  = [(lit "QR Codes 1 - 2/", ZipFolder);
     (lit "QR Codes 1 - 2/9.png", ZipFile (lit "BBBB") true);
     (lit "QR Codes 1 - 2/10.png", ZipFile (lit "AAAA") true)].
Proof. vm_compute. reflexivity. Qed.

(** The identifier [7] twice in a batch of three. *)
Lemma downloadBatch_collapses_duplicates_witness :
  let qrCodes := [recordOf (lit "7") (lit "AAAA"); recordOf (lit "8") (lit "BBBB");
                  recordOf (lit "7") (lit "AAAA")] in
  let w := worldWithArray qrCodes in
  let folder := folderNameOf 1 3 ++ [47%N] in
  exists zip,
    trace (downloadBatch FixedSecret toyGenerateAsync 0 1 1 3 w).1
      = trace w ++ CallGenerateAsync zip ::
          match toyGenerateAsync zip with
          | Ok blob => [Download (folderNameOf 1 3 ++ lit ".zip") blob]
          | Throw _ => []
          end /\
    (downloadBatch FixedSecret toyGenerateAsync 0 1 1 3 w).2
      = match toyGenerateAsync zip with Ok _ => Ok () | Throw e => Throw e end /\
    appState (downloadBatch FixedSecret toyGenerateAsync 0 1 1 3 w).1 = appState w /\
    length (zipFiles zip) = length (remove_dups (map number qrCodes)) /\
    length (zipFiles zip) < length qrCodes /\
    (forall s1 r s2,
       arraySort compareByNumber qrCodes = s1 ++ r :: s2 ->
       number r ∉ map number s2 ->
       imageEntry FixedSecret folder r ∈ zip /\
       forall e, (imagePath FixedSecret folder r, e) ∈ zip ->
                 e = (imageEntry FixedSecret folder r).2).
Proof.
  apply (downloadBatch_collapses_duplicates FixedSecret toyGenerateAsync 0 1 1 3
           [recordOf (lit "7") (lit "AAAA"); recordOf (lit "8") (lit "BBBB");
            recordOf (lit "7") (lit "AAAA")]
           (worldWithArray
              [recordOf (lit "7") (lit "AAAA"); recordOf (lit "8") (lit "BBBB");
               recordOf (lit "7") (lit "AAAA")])).
  - reflexivity.
  - repeat constructor.
  - intros Hnd. apply NoDup_cons in Hnd as [Hnotin _]. apply Hnotin.
    apply list_elem_of_further, list_elem_of_here.
Defined.

(** The same batch, evaluated: two images for three records. *)
Example archive_of_duplicates :
  archiveOf FixedSecret 1 3
    [recordOf (lit "7") (lit "AAAA"); recordOf (lit "8") (lit "BBBB");
     recordOf (lit "7") (lit "CCCC")]
  = [(lit "QR Codes 1 - 3/", ZipFolder);
     (lit "QR Codes 1 - 3/7.png", ZipFile (lit "CCCC") true);
     (lit "QR Codes 1 - 3/8.png", ZipFile (lit "BBBB") true)].
Proof. vm_compute. reflexivity. Qed.

(** C5, at identifiers above [2^53]: the file loads, the run completes, and
    the images are inserted with [9007199254740993] before
    [9007199254740992], since [parseInt] gives [2^53] for both and the
    stable sort leaves them in the order of the file. *)
Theorem archive_order_above_2_53 :
  let w := (handleFileUpload (Some (Ok aboveLimit)) initialWorld).1 in
  let w' := (generateAndDownloadQRCodes FixedSecret toySHA256 toyToDataURL
               toyGenerateAsync w).1 in
  fileContent (appState w) = [lit "9007199254740993"; lit "9007199254740992"] /\
  parseInt (lit "9007199254740993") = Num (2 ^ 53) /\
  parseInt (lit "9007199254740992") = Num (2 ^ 53) /\
  error (appState w') = [] /\
  exists zip content,
    trace w' !! 4 = Some (CallGenerateAsync zip) /\
    trace w' !! 5 = Some (Download (lit "QR Codes 1 - 2.zip") content) /\
    (zipFiles zip).*1 = [lit "QR Codes 1 - 2/9007199254740993.png";
                         lit "QR Codes 1 - 2/9007199254740992.png"].
Proof.
  split_and!; [vm_compute; reflexivity ..|].
  eexists _, _. split_and!; vm_compute; reflexivity.
Qed.

(** C10, at the same identifiers: after [downloadBatch] the caller's array
    holds the record of [9007199254740993] before that of
    [9007199254740992], which is not the numeric order of the identifiers;
    the array was sorted in place by the comparator, for which the two are
    equal. *)
Theorem array_order_above_2_53 :
  let a := recordOf (lit "9007199254740993") (lit "AAAA") in
  let b := recordOf (lit "9007199254740992") (lit "BBBB") in
  let w := worldWithArray [a; b] in
  let w' := (downloadBatch FixedSecret toyGenerateAsync 0 1 1 2 w).1 in
  heap w' !! 0 = Some [a; b] /\
  compareByNumber a b = Num 0 /\
  appState w' = appState w.
Proof. split_and!; vm_compute; reflexivity. Qed.

(** ** Concrete inputs of the further properties *)

(** Three lines, one padded and one empty. *)
Lemma fileLines_joined_witness :
  let ls := [lit "1"; lit " 2 "; []] in
  fileLines (joinWith [10%N] ls)
    = List.filter (fun line => negb (length line =? 0)%nat) (map trim ls) /\
  fileLines (joinWith [13%N; 10%N] ls) = fileLines (joinWith [10%N] ls).
Proof.
  apply (fileLines_joined [lit "1"; lit " 2 "; []]).
  repeat constructor; apply (bool_decide_eq_false_1 (10%N ∈ _));
    vm_compute; reflexivity.
Defined.

Example fileLines_joined_run :
  fileLines (joinWith [13%N; 10%N] [lit "1"; lit " 2 "; []]) = [lit "1"; lit "2"].
Proof. vm_compute. reflexivity. Qed.

(** A file of a space, a line feed and a tab. *)
Lemma blank_file_loads_nothing_witness :
  let w1 := (handleFileUpload (Some (Ok [32%N; 10%N; 9%N])) initialWorld).1 in
  let w2 := (generateAndDownloadQRCodes FixedSecret toySHA256 toyToDataURL
               toyGenerateAsync w1).1 in
  fileContent (appState w1) = [] /\
  error (appState w1) = [] /\
  debugInfo (appState w1) = loadedMessage 0 /\
  generateButton (render (appState w1)) = None /\
  trace w2 = trace initialWorld /\ heap w2 = heap initialWorld /\
  errorBox (render (appState w2))
    = Some (if bool_decide (FixedSecret = UserSecret
                            /\ password (appState initialWorld) = [])
            then noPasswordMessage else noFileMessage).
Proof.
  apply (blank_file_loads_nothing FixedSecret toySHA256 toyToDataURL
           toyGenerateAsync [32%N; 10%N; 9%N] initialWorld).
  repeat constructor.
Defined.

(** Two lines handed to an encoder that rejects the first. *)
Lemma processBatch_stops_at_first_failure_witness :
  let fc := [lit "1"; lit "2"] in
  let err := ErrorObject (lit "The amount of data is too big to be stored in a QR Code") in
  let w := initialWorld in
  exists w' rs,
    processBatch FixedSecret toySHA256 rejectingToDataURL fc 0 2 [] w
      = (w', Throw err) /\
    trace w' = trace w
      ++ concat (map (fun line => (encodeLine FixedSecret toySHA256
                                     rejectingToDataURL [] line).1) [])
      ++ (encodeLine FixedSecret toySHA256 rejectingToDataURL [] (lit "1")).1 /\
    heap w !! fresh (dom (heap w)) = None /\
    heap w' !! fresh (dom (heap w)) = Some rs /\ length rs = length (@nil jsstring) /\
    appState w' = appState w /\ heapKept w w'.
Proof.
  apply (processBatch_stops_at_first_failure FixedSecret toySHA256
           rejectingToDataURL [lit "1"; lit "2"] [] 0 2 initialWorld
           [] (lit "1") [lit "2"]).
  - reflexivity.
  - constructor.
  - reflexivity.
Defined.

(** The last two of three lines. *)
Lemma processBatch_returns_slice_witness :
  let fc := [lit "1"; lit "2"; lit "3"] in
  let w := initialWorld in
  exists w' records,
    let l := fresh (dom (heap w)) in
    processBatch FixedSecret toySHA256 toyToDataURL fc 1 3 [] w = (w', Ok l) /\
    heap w !! l = None /\
    heap w' !! l = Some records /\
    Forall2 (encodes FixedSecret toySHA256 toyToDataURL []) (slice 1 3 fc) records /\
    length records = 3 - 1 /\
    (forall i line, slice 1 3 fc !! i = Some line
                    <-> (i < 3 - 1 /\ fc !! (1 + i) = Some line)) /\
    (forall l', l' <> l -> heap w' !! l' = heap w !! l') /\
    appState w' = appState w /\
    trace w' = trace w ++ recordEvents FixedSecret [] records.
Proof.
  apply (processBatch_returns_slice FixedSecret toySHA256 toyToDataURL
           [lit "1"; lit "2"; lit "3"] [] 1 3 initialWorld).
  - simpl. lia.
  - repeat (constructor; [eexists _, _; reflexivity|]). constructor.
Defined.

(** One line, and a range of two. *)
Lemma processBatch_out_of_range_witness :
  let fc := [lit "1"] in
  let w := initialWorld in
  exists w' message records,
    processBatch FixedSecret toySHA256 toyToDataURL fc 0 2 [] w
      = (w', Throw (ErrorObject message)) /\
    Forall2 (encodes FixedSecret toySHA256 toyToDataURL []) (drop 0 fc) records /\
    trace w' = trace w ++ recordEvents FixedSecret [] records /\
    heap w' !! fresh (dom (heap w)) = Some records /\
    appState w' = appState w.
Proof.
  apply (processBatch_out_of_range FixedSecret toySHA256 toyToDataURL
           [lit "1"] [] 0 2 initialWorld).
  - lia.
  - simpl. lia.
  - repeat (constructor; [eexists _, _; reflexivity|]). constructor.
Defined.


(** The same page, evaluated: the information box after the failure. *)
Example failed_run_info_box :
  infoBox (render (appState (generateAndDownloadQRCodes FixedSecret toySHA256
                               rejectingToDataURL toyGenerateAsync
                               (loadedWorld [lit "1"; lit "2"] [])).1))
  = Some (lit "Processando lote 1/1: c" ++ [243%N] ++ lit "digos 1 at" ++ [233%N]
          ++ lit " 2" ++ [10%N] ++ lit "Processando c" ++ [243%N]
          ++ lit "digos 1 at" ++ [233%N] ++ lit " 2").
Proof. vm_compute. reflexivity. Qed.


(** The downloads and the timers of a run over 2001 lines: two downloads,
    with one timer between them. *)
Lemma run_is_paced_witness :
  let w := loadedWorld manyLines [] in
  let fc := fileContent (appState w) in
  let n := length fc in
  let m := ceilDiv n BATCH_SIZE in
  exists contents,
    length contents = m /\
    pacing (trace (generateAndDownloadQRCodes FixedSecret toySHA256 toyToDataURL
                     toyGenerateAsync w).1)
    = pacing (trace w)
      ++ concat (zip_with
           (fun k content =>
              Download (batchZipName n k) content
              :: (if S k =? m then [] else [SetTimeout 10000%N]))
           (seq 0 m) contents).
Proof.
  apply (run_is_paced FixedSecret toySHA256 toyToDataURL toyGenerateAsync
           (loadedWorld manyLines [])).
  - vm_compute. discriminate.
  - intros Hv. discriminate Hv.
  - intros [|[|k]] Hk; [vm_compute; reflexivity | vm_compute; reflexivity |].
    exfalso. revert Hk. vm_compute. lia.
Defined.

(** The same run, evaluated: the two downloads and the timer between them. *)
Example manyLines_pacing :
  map eventName
    (pacing (trace (generateAndDownloadQRCodes FixedSecret toySHA256 toyToDataURL
                      toyGenerateAsync (loadedWorld manyLines [])).1))
  = [lit "QR Codes 1 - 2000.zip"; lit "timer"; lit "QR Codes 2001 - 2001.zip"].
Proof. vm_compute. reflexivity. Qed.

(** Scenario A, from the upload to the QR codes. *)
Lemma upload_then_generate_encodes_every_line_witness :
  let w := initialWorld in
  let pw := password (appState w) in
  let w1 := (handleFileUpload (Some (Ok scenarioA)) w).1 in
  let w2 := (generateAndDownloadQRCodes FixedSecret toySHA256 toyToDataURL
               toyGenerateAsync w1).1 in
  fileContent (appState w1) = fileLines scenarioA /\
  exists texts,
    qrTexts (trace w2) = qrTexts (trace w) ++ texts /\
    Forall2 (fun line t =>
               exists hash,
                 toySHA256 (removeWhiteSpace line ++ secret FixedSecret pw) = Ok hash /\
                 t = lit "https://check.vant.plus/" ++ removeWhiteSpace line
                     ++ lit "-" ++ hash)
      (fileLines scenarioA) texts.
Proof.
  apply (upload_then_generate_encodes_every_line FixedSecret toySHA256 toyToDataURL
           toyGenerateAsync scenarioA initialWorld).
  - vm_compute. repeat constructor.
  - vm_compute. discriminate.
  - intros Hv. discriminate Hv.
  - intros [|k] Hk; [vm_compute; reflexivity |].
    exfalso. revert Hk. vm_compute. lia.
Defined.

Example scenarioA_qrTexts :
  qrTexts (trace (generateAndDownloadQRCodes FixedSecret toySHA256 toyToDataURL
                    toyGenerateAsync
                    (handleFileUpload (Some (Ok scenarioA)) initialWorld).1).1)
  = [lit "https://check.vant.plus/1-VHWPAV1";
     lit "https://check.vant.plus/2-VHWPAV2";
     lit "https://check.vant.plus/3-VHWPAV3"].
Proof. vm_compute. reflexivity. Qed.

(** One URL read in two ways. *)
Lemma urlOf_unambiguous_witness :
  lit "7" = lit "7" /\ lit "ab" = lit "ab".
Proof.
  apply (urlOf_unambiguous (lit "7") (lit "ab") (lit "7") (lit "ab"));
    reflexivity.
Defined.

(** Without the digits the URL can be read in two ways. *)
Example urlOf_ambiguous_with_hyphen :
  urlOf (lit "1-2") (lit "3") = urlOf (lit "1") (lit "2-3").
Proof. vm_compute. reflexivity. Qed.

(** The identifiers [10] and [9], in that order. *)
Lemma downloadBatch_numeric_order_witness :
  let qrCodes := [recordOf (lit "10") (lit "AAAA"); recordOf (lit "9") (lit "BBBB")] in
  let w := worldWithArray qrCodes in
  let folder := folderNameOf 1 2 ++ [47%N] in
  exists sorted,
    sorted ≡ₚ qrCodes /\
    StronglySorted
      (fun a b => decimalValue (number a) <= decimalValue (number b))%Z sorted /\
    (forall k,
       List.filter (fun r => decimalValue (number r) =? k)%Z sorted
       = List.filter (fun r => decimalValue (number r) =? k)%Z qrCodes) /\
    heap (downloadBatch FixedSecret toyGenerateAsync 0 1 1 2 w).1 !! 0 = Some sorted /\
    archiveOf FixedSecret 1 2 qrCodes
    = (folder, ZipFolder) :: map (imageEntry FixedSecret folder) sorted /\
    trace (downloadBatch FixedSecret toyGenerateAsync 0 1 1 2 w).1
    = trace w ++ CallGenerateAsync (archiveOf FixedSecret 1 2 qrCodes) ::
        match toyGenerateAsync (archiveOf FixedSecret 1 2 qrCodes) with
        | Ok content => [Download (folderNameOf 1 2 ++ lit ".zip") content]
        | Throw _ => []
        end.
Proof.
  apply (downloadBatch_numeric_order FixedSecret toyGenerateAsync 0 1 1 2
           [recordOf (lit "10") (lit "AAAA"); recordOf (lit "9") (lit "BBBB")]
           (worldWithArray
              [recordOf (lit "10") (lit "AAAA"); recordOf (lit "9") (lit "BBBB")])).
  - reflexivity.
  - repeat constructor.
  - apply (bool_decide_eq_true_1 (NoDup _)). vm_compute. reflexivity.
Defined.

(** Two identifiers, written in the four ways. *)
Lemma upload_of_digit_lines_witness :
  let numbers := [lit "1"; lit "22"] in
  let w := initialWorld in
  Forall (fun text =>
            let w' := (handleFileUpload (Some (Ok text)) w).1 in
            fileContent (appState w') = numbers /\
            error (appState w') = [] /\
            debugInfo (appState w') = loadedMessage (length numbers))
    [joinWith [10%N] numbers; joinWith [13%N; 10%N] numbers;
     joinWith [10%N] (numbers ++ [[]]); joinWith [13%N; 10%N] (numbers ++ [[]])] /\
  map removeWhiteSpace numbers = numbers.
Proof.
  apply (upload_of_digit_lines [lit "1"; lit "22"] initialWorld).
  repeat constructor.
Defined.

(** A password typed over another one, in [part_000]. *)
Lemma typed_password_is_hashed_witness :
  let w := loadedWorld [lit "1"; lit "2"] (lit "old") in
  let fc := fileContent (appState w) in
  let w' := handleAll UserSecret toySHA256 toyToDataURL toyGenerateAsync
              [TypePassword (lit "pw"); Generate] w in
  hashInputs (trace w')
  = hashInputs (trace w) ++ map (fun line => removeWhiteSpace line ++ lit "pw") fc /\
  password (appState w') = lit "pw" /\
  fileContent (appState w') = fc.
Proof.
  apply (typed_password_is_hashed UserSecret toySHA256 toyToDataURL toyGenerateAsync
           (lit "pw") (loadedWorld [lit "1"; lit "2"] (lit "old"))).
  - reflexivity.
  - discriminate.
  - discriminate.
  - intros [|k] Hk; [vm_compute; reflexivity |].
    exfalso. revert Hk. vm_compute. lia.
Defined.

